(** * Robot remote-control client: [script_robot.py]

    A shallow embedding of the keyboard mixer
    [get_keyboard_inputs_from_pygame] and of the reconnecting network loop
    [run_network_client], with the properties of the client's behaviour
    proved about them.

    Python's [float] is IEEE 754 binary64, and so is Rocq's primitive
    [float]: the arithmetic of the source is embedded bit for bit.
    Python's [int] is unbounded and is embedded as [Z]. *)

From Stdlib Require Import ZArith List Bool Lia Floats.
From Stdlib Require Ascii String DecimalString DecimalPos DecimalZ.
Import ListNotations.

Set Warnings "-inexact-float".

Local Open Scope Z_scope.

(** ** Exceptions and fallible results *)

(** The exception classes the source tells apart (lines 167 and 169):
    the four it retries on, and every other [Exception]. *)
Inductive exn : Type :=
| SocketTimeout
| ConnectionRefusedError
| ConnectionResetError
| BrokenPipeError
| OtherException.

Inductive res (A : Type) : Type :=
| Ok (a : A)
| Raise (e : exn).
Arguments Ok {A} a.
Arguments Raise {A} e.

Definition bind {A B : Type} (m : res A) (k : A -> res B) : res B :=
  match m with
  | Ok a => k a
  | Raise e => Raise e
  end.

Notation "x <- m ;; k" := (bind m (fun x => k))
  (at level 61, m at next level, right associativity).
Notation "' p <- m ;; k" := (bind m (fun x => let p := x in k))
  (at level 61, p pattern, m at next level, right associativity).

(** ** Python numbers *)

Module Py.

(** A Python number as the mixer handles it: an [int] until line 48
    multiplies it by a float literal. *)
Inductive num : Type :=
| Int (z : Z)
| Float (f : float).

(** [float(z)]: correctly rounded to binary64 (exact below [2^53]). *)
Definition float_of_int (z : Z) : float :=
  SF2Prim (binary_normalize prec emax z 0 false).

Definition to_float (v : num) : float :=
  match v with
  | Int z => float_of_int z
  | Float f => f
  end.

(** Binary arithmetic: [int] with [int] stays [int], anything else is
    carried out on floats. *)
Definition arith (fz : Z -> Z -> Z) (ff : float -> float -> float)
  (a b : num) : num :=
  match a, b with
  | Int x, Int y => Int (fz x y)
  | _, _ => Float (ff (to_float a) (to_float b))
  end.

Definition add : num -> num -> num := arith Z.add PrimFloat.add.
Definition sub : num -> num -> num := arith Z.sub PrimFloat.sub.
Definition mul : num -> num -> num := arith Z.mul PrimFloat.mul.

(** [a > b]. *)
Definition gt (a b : num) : bool :=
  match a, b with
  | Int x, Int y => x >? y
  | _, _ => PrimFloat.ltb (to_float b) (to_float a)
  end.

(** [abs(a)]. *)
Definition abs (a : num) : num :=
  match a with
  | Int x => Int (Z.abs x)
  | Float f => Float (PrimFloat.abs f)
  end.

(** [max(a, b)]: the first argument unless the second is greater. *)
Definition max (a b : num) : num := if gt b a then b else a.

Definition is_zero (a : num) : bool :=
  match a with
  | Int x => x =? 0
  | Float f => PrimFloat.eqb f 0%float
  end.

(** [a / b]: true division, [ZeroDivisionError] on a zero divisor. *)
Definition truediv (a b : num) : res num :=
  if is_zero b then Raise OtherException
  else Ok (Float (PrimFloat.div (to_float a) (to_float b))).

(** The integer part of a finite binary64 value, rounded toward zero. *)
Definition trunc_SF (x : spec_float) : option Z :=
  match x with
  | S754_zero _ => Some 0
  | S754_finite s m e =>
      let q := match e with
               | Zneg k => Z.shiftr (Zpos m) (Zpos k)
               | _ => Z.shiftl (Zpos m) e
               end in
      Some (if s then - q else q)
  | S754_infinity _ | S754_nan => None
  end.

(** [int(a)]: truncation toward zero; [ValueError] on NaN and
    [OverflowError] on an infinity. *)
Definition int (a : num) : res Z :=
  match a with
  | Int x => Ok x
  | Float f =>
      match trunc_SF (Prim2SF f) with
      | Some z => Ok z
      | None => Raise OtherException
      end
  end.

(** [min(a, b)] and [max(a, b)] on two floats (lines 109 and 112). *)
Definition fmin (a b : float) : float := if PrimFloat.ltb b a then b else a.
Definition fmax (a b : float) : float := if PrimFloat.ltb a b then b else a.

End Py.

(** ** Configuration (lines 7-26) *)

Definition MAX_MOTOR_POWER : Z := 255.
Definition initial_speed : float := 0.5%float.
Definition speed_step : float := 0.1%float.

(** ** Keyboard and commands *)

Inductive key : Type :=
| K_w | K_s | K_a | K_d
| K_UP | K_DOWN | K_ESCAPE | K_SPACE
| K_other (code : Z).

(** [pygame.key.get_pressed()]: which keys are held. *)
Definition keys_state : Type := key -> bool.

(** The command dictionary of lines 66-72 and 78. *)
Record command : Type := {
  front_left : Z;
  back_left : Z;
  front_right : Z;
  back_right : Z;
  active : bool
}.

(** ** The input mixer (lines 28-73) *)

Definition get_keyboard_inputs_from_pygame (keys : keys_state)
  (current_speed : float) : res command :=
  let forward := keys K_w in
  let backward := keys K_s in
  let left := keys K_a in
  let right := keys K_d in
  let y_input := 0 in
  let x_input := 0 in
  let y_input := if forward then y_input + 1 else y_input in
  let y_input := if backward then y_input - 1 else y_input in
  let x_input := if left then x_input - 1 else x_input in
  let x_input := if right then x_input + 1 else x_input in
  let '(x_input, y_input) :=
    if negb (x_input =? 0) && negb (y_input =? 0)
    then (Py.mul (Py.Int x_input) (Py.Float 0.7071%float),
          Py.mul (Py.Int y_input) (Py.Float 0.7071%float))
    else (Py.Int x_input, Py.Int y_input) in
  let left_power_raw := Py.sub y_input x_input in
  let right_power_raw := Py.add y_input x_input in
  let max_raw_power :=
    Py.max (Py.abs left_power_raw) (Py.abs right_power_raw) in
  '(left_power_raw, right_power_raw) <-
    (if Py.gt max_raw_power (Py.Float 1.0%float)
     then l <- Py.truediv left_power_raw max_raw_power ;;
          r <- Py.truediv right_power_raw max_raw_power ;;
          Ok (l, r)
     else Ok (left_power_raw, right_power_raw)) ;;
  let left_final_power :=
    Py.mul (Py.mul left_power_raw (Py.Float current_speed))
           (Py.Int MAX_MOTOR_POWER) in
  let right_final_power :=
    Py.mul (Py.mul right_power_raw (Py.Float current_speed))
           (Py.Int MAX_MOTOR_POWER) in
  fl <- Py.int left_final_power ;;
  bl <- Py.int left_final_power ;;
  fr <- Py.int right_final_power ;;
  br <- Py.int right_final_power ;;
  Ok {| front_left := fl; back_left := bl;
        front_right := fr; back_right := br;
        active := true |}.

(** ** Events, program state and observable actions *)

(** The events of [pygame.event.get()] that the loop looks at. *)
Inductive pg_event : Type :=
| QUIT
| MOUSEBUTTONDOWN (button : Z) (pos : Z * Z)
| KEYDOWN (k : key)
| OTHER_EVENT.

(** [pygame.Rect(left, top, width, height)]. *)
Record rect : Type := { r_left : Z; r_top : Z; r_width : Z; r_height : Z }.

(** [Rect.collidepoint]: the right and bottom edges are outside. *)
Definition collidepoint (r : rect) (pos : Z * Z) : bool :=
  let '(x, y) := pos in
  (r_left r <=? x) && (x <? r_left r + r_width r) &&
  (r_top r <=? y) && (y <? r_top r + r_height r).

Definition button_rect : rect :=
  {| r_left := 150; r_top := 125; r_width := 100; r_height := 50 |}.

(** The globals [running] and [current_speed] (lines 24-26) and the
    local [is_sending] (line 87), which all outlive a connection. *)
Record state : Type := {
  running : bool;
  current_speed : float;
  is_sending : bool
}.

Definition initial_state : state :=
  {| running := true; current_speed := initial_speed; is_sending := false |}.

Definition set_running (b : bool) (st : state) : state :=
  {| running := b; current_speed := current_speed st;
     is_sending := is_sending st |}.
Definition set_current_speed (f : float) (st : state) : state :=
  {| running := running st; current_speed := f;
     is_sending := is_sending st |}.
Definition set_is_sending (b : bool) (st : state) : state :=
  {| running := running st; current_speed := current_speed st;
     is_sending := b |}.

(** What the program does to the outside world, in order.  [Send c r]
    is a call of [sendall] on the JSON text of the command [c], with
    its result [r]; [Shutdown] marks an assignment [running = False]
    (lines 102, 116 and 171). *)
Inductive action : Type :=
| Connect (r : res unit)              (* line 95 *)
| Poll                                (* line 100: a tick starts *)
| Shutdown
| Send (c : command) (r : res unit)   (* lines 130 and 176 *)
| Render (sending : bool) (c : option command)  (* lines 133-164 *)
| Tick30                              (* line 165 *)
| Close                               (* line 180 *)
| Sleep (seconds : Z)                 (* line 183 *)
| PygameQuit.                         (* line 185 *)

Definition trace : Type := list action.

(** [stop_command] (line 78). *)
Definition stop_command : command :=
  {| front_left := 0; back_left := 0; front_right := 0; back_right := 0;
     active := false |}.

(** ** The event handler (lines 100-119) *)

Definition increase_speed (s : float) : float :=
  Py.fmin 1.0%float (s + speed_step)%float.
Definition decrease_speed (s : float) : float :=
  Py.fmax 0.0%float (s - speed_step)%float.

Definition handle_event (st : state) (ev : pg_event) : state * trace :=
  match ev with
  | QUIT => (set_running false st, [Shutdown])
  | MOUSEBUTTONDOWN button pos =>
      if button =? 1 then
        if collidepoint button_rect pos
        then (set_is_sending (negb (is_sending st)) st, [])
        else (st, [])
      else (st, [])
  | KEYDOWN K_UP =>
      (set_current_speed (increase_speed (current_speed st)) st, [])
  | KEYDOWN K_DOWN =>
      (set_current_speed (decrease_speed (current_speed st)) st, [])
  | KEYDOWN K_ESCAPE => (set_running false st, [Shutdown])
  | KEYDOWN K_SPACE => (set_is_sending false st, [])
  | KEYDOWN _ => (st, [])
  | OTHER_EVENT => (st, [])
  end.

(** The [for event in pygame.event.get()] loop. *)
Fixpoint handle_events (st : state) (evs : list pg_event) : state * trace :=
  match evs with
  | [] => (st, [])
  | ev :: evs' =>
      let '(st1, tr1) := handle_event st ev in
      let '(st2, tr2) := handle_events st1 evs' in
      (st2, tr1 ++ tr2)
  end.

(** ** Sockets and the environment *)

(** A socket object, with whether its [connect] call returned. *)
Record socket : Type := { connected : bool }.

(** [sock.sendall(msg)]: how the call ends is the network's affair
    ([r]), on every socket. On one whose [connect] raised, the call of
    line 176 may raise in its turn, but after a connect timeout the
    socket is still connecting and the call can also wait and go
    through. *)
Definition sendall (sock : socket) (r : res unit) : res unit := r.

(** What the outside world supplies during one pass of the inner loop:
    the queued events, the held keys and how the send goes. *)
Record tick_input : Type := {
  events : list pg_event;
  pressed : keys_state;
  send_result : res unit
}.

(** What it supplies during one pass of the outer loop. *)
Record session_input : Type := {
  socket_result : res unit;      (* line 93 *)
  connect_result : res unit;     (* line 95 *)
  ticks : list tick_input;       (* lines 99-165 *)
  final_send_result : res unit   (* line 176 *)
}.

(** How a block of the program was left. [Pending]: the loop was still
    running when the recorded inputs ran out. *)
Inductive outcome : Type :=
| Normal
| Raised (e : exn)
| Pending.

(** ** One tick (lines 100-165) *)

Definition tick (client_socket : socket) (st : state) (inp : tick_input)
  : state * trace * res unit :=
  let '(st, tr_events) := handle_events st (events inp) in
  let keys := pressed inp in
  let choice :=
    if is_sending st
    then commands <- get_keyboard_inputs_from_pygame keys (current_speed st) ;;
         Ok (Some commands, commands)
    else Ok (None, stop_command) in
  match choice with
  | Raise e => (st, Poll :: tr_events, Raise e)
  | Ok (commands, message_to_send) =>
      match sendall client_socket (send_result inp) with
      | Raise e =>
          (st, Poll :: tr_events ++ [Send message_to_send (Raise e)], Raise e)
      | Ok _ =>
          (st, Poll :: tr_events ++
               [Send message_to_send (Ok tt);
                Render (is_sending st) commands; Tick30], Ok tt)
      end
  end.

(** The inner [while running] loop (line 99). *)
Fixpoint connected_loop (client_socket : socket) (st : state)
  (inps : list tick_input) : state * trace * outcome :=
  if running st then
    match inps with
    | [] => (st, [], Pending)
    | inp :: inps' =>
        match tick client_socket st inp with
        | (st1, tr1, Raise e) => (st1, tr1, Raised e)
        | (st1, tr1, Ok _) =>
            let '(st2, tr2, o) := connected_loop client_socket st1 inps' in
            (st2, tr1 ++ tr2, o)
        end
    end
  else (st, [], Normal).

(** ** One connection attempt (lines 90-183) *)

(** The [try] block (lines 92-165), with the socket it leaves in
    [client_socket]. *)
Definition try_block (st : state) (inp : session_input)
  : option socket * state * trace * outcome :=
  match socket_result inp with
  | Raise e => (None, st, [], Raised e)
  | Ok _ =>
      match connect_result inp with
      | Raise e =>
          (Some {| connected := false |}, st, [Connect (Raise e)], Raised e)
      | Ok _ =>
          let client_socket := {| connected := true |} in
          let '(st1, tr1, o) := connected_loop client_socket st (ticks inp) in
          (Some client_socket, st1, Connect (Ok tt) :: tr1, o)
      end
  end.

(** The exceptions of the first [except] clause (line 167). *)
Definition is_network_error (e : exn) : bool :=
  match e with
  | SocketTimeout | ConnectionRefusedError
  | ConnectionResetError | BrokenPipeError => true
  | OtherException => false
  end.

(** The two [except] clauses (lines 167-171). *)
Definition except_clauses (st : state) (o : outcome) : state * trace :=
  match o with
  | Raised e =>
      if is_network_error e then (st, [])
      else (set_running false st, [Shutdown])
  | _ => (st, [])
  end.

(** The [finally] clause up to [close] (lines 173-180): the failure of
    the last send is caught on the spot (line 178). *)
Definition final_stop (client_socket : option socket) (r : res unit)
  : trace :=
  match client_socket with
  | Some sock => [Send stop_command (sendall sock r); Close]
  | None => []
  end.

(** Lines 182-183. *)
Definition retry_delay (st : state) : trace :=
  if running st then [Sleep 5] else [].

(** One pass of the outer loop body. The flag tells whether the pass
    came to its end ([false]: the inputs ran out inside the inner loop). *)
Definition session (st : state) (inp : session_input)
  : state * trace * bool :=
  let '(client_socket, st1, tr1, o) := try_block st inp in
  match o with
  | Pending => (st1, tr1, false)
  | _ =>
      let '(st2, tr2) := except_clauses st1 o in
      (st2,
       tr1 ++ tr2 ++ final_stop client_socket (final_send_result inp)
           ++ retry_delay st2,
       true)
  end.

(** The outer [while running] loop (line 89). *)
Fixpoint retry_loop (st : state) (script : list session_input)
  : state * trace * bool :=
  if running st then
    match script with
    | [] => (st, [], false)
    | inp :: script' =>
        match session st inp with
        | (st1, tr1, false) => (st1, tr1, false)
        | (st1, tr1, true) =>
            let '(st2, tr2, fin) := retry_loop st1 script' in
            (st2, tr1 ++ tr2, fin)
        end
    end
  else (st, [], true).

(** [run_network_client] (lines 75-186) from a given state of the
    globals; the flag tells whether the function returned. *)
Definition run_from (st : state) (script : list session_input)
  : state * trace * bool :=
  let '(st1, tr, fin) := retry_loop st script in
  (st1, if fin then tr ++ [PygameQuit] else tr, fin).

Definition run_network_client (script : list session_input)
  : state * trace * bool :=
  run_from initial_state script.

(** ** The wire format (lines 78, 125 and 130) *)

Module Json.

Import Ascii String.
Local Open Scope string_scope.

(** The values of the dictionaries the client serialises. *)
Inductive value : Type :=
| Int (z : Z)
| Bool (b : bool).

(** A Python [dict] with string keys, in insertion order. *)
Definition dict : Type := list (string * value).

(** The double quote character. *)
Definition quote : string :=
  String "034"%char EmptyString.

(** [str(z)]: the decimal digits, after a minus sign when negative. *)
Definition str (z : Z) : string :=
  DecimalString.NilZero.string_of_int (Z.to_int z).

Definition dumps_value (v : value) : string :=
  match v with
  | Int z => str z
  | Bool true => "true"
  | Bool false => "false"
  end.

(** The items [key: value] joined by [", "]; the keys of the client hold
    no character that JSON escapes. *)
Fixpoint dumps_items (items : dict) : string :=
  match items with
  | [] => EmptyString
  | (k, v) :: rest =>
      quote ++ k ++ quote ++ ": " ++ dumps_value v ++
      match rest with
      | [] => EmptyString
      | _ => ", " ++ dumps_items rest
      end
  end.

(** [json.dumps(d)] with the default separators. *)
Definition dumps (d : dict) : string :=
  "{" ++ dumps_items d ++ "}".

(** The dictionary of lines 66-72. *)
Definition command_dict (c : command) : dict :=
  [ ("front_left", Int (front_left c));
    ("back_left", Int (back_left c));
    ("front_right", Int (front_right c));
    ("back_right", Int (back_right c));
    ("active", Bool (active c)) ].

(** The text of [stop_command] (line 78). *)
Definition stop_text : string :=
  dumps [ ("active", Bool false);
               ("front_left", Int 0);
               ("back_left", Int 0);
               ("front_right", Int 0);
               ("back_right", Int 0) ].

(** [message_to_send] (lines 123-128), [commands] being the mixer's
    result or [None]. *)
Definition message_text (commands : option command) : string :=
  match commands with
  | Some c => dumps (command_dict c)
  | None => stop_text
  end.

(** The bytes of successive messages (line 130), as the peer receives
    them. *)
Fixpoint stream (messages : list (option command)) : string :=
  match messages with
  | [] => EmptyString
  | commands :: rest => message_text commands ++ stream rest
  end.

(** Every character of the string satisfies [p]. *)
Fixpoint all_chars (p : ascii -> bool) (s : string) : bool :=
  match s with
  | EmptyString => true
  | String c s' => p c && all_chars p s'
  end.

(** A digit or the minus sign. *)
Definition is_num (c : ascii) : bool :=
  ((48 <=? nat_of_ascii c)%nat && (nat_of_ascii c <=? 57)%nat) ||
  Ascii.eqb c "-".

Definition not_closing (c : ascii) : bool := negb (Ascii.eqb c "}").

(** A printable ASCII character (space to tilde). *)
Definition printable (c : ascii) : bool :=
  (32 <=? nat_of_ascii c)%nat && (nat_of_ascii c <=? 126)%nat.

(** The string is empty or starts with a character outside [p]. *)
Definition stops (p : ascii -> bool) (s : string) : Prop :=
  match s with
  | EmptyString => True
  | String c _ => p c = false
  end.

End Json.

(** ** Building inputs *)

Definition key_eqb (a b : key) : bool :=
  match a, b with
  | K_w, K_w | K_s, K_s | K_a, K_a | K_d, K_d
  | K_UP, K_UP | K_DOWN, K_DOWN | K_ESCAPE, K_ESCAPE | K_SPACE, K_SPACE => true
  | K_other x, K_other y => x =? y
  | _, _ => false
  end.

(** The key state in which exactly the keys of [ks] are held. *)
Definition held (ks : list key) : keys_state :=
  fun k => existsb (key_eqb k) ks.

(** A tick with no event and no key held, whose send goes through. *)
Definition quiet_tick : tick_input :=
  {| events := []; pressed := held []; send_result := Ok tt |}.

(** * Vocabulary of the statements *)

(** ** Sample inputs and commands *)

(** What the mixer returns for the forward and left keys at speed 0.5. *)
Definition half_speed_left_turn : command :=
  {| front_left := 127; back_left := 127;
     front_right := 0; back_right := 0; active := true |}.

(** A connection that breaks on its second send, with the last send
    failing as well. *)
Definition broken_session : session_input :=
  {| socket_result := Ok tt; connect_result := Ok tt;
     ticks := [ quiet_tick;
                {| events := []; pressed := held [];
                   send_result := Raise ConnectionResetError |} ];
     final_send_result := Raise BrokenPipeError |}.

(** A connect attempt that the peer refuses. *)
Definition refused_session : session_input :=
  {| socket_result := Ok tt;
     connect_result := Raise ConnectionRefusedError;
     ticks := []; final_send_result := Raise BrokenPipeError |}.

(** A connect attempt that times out, on a socket that is still
    connecting and lets the last send through. *)
Definition timed_out_session : session_input :=
  {| socket_result := Ok tt;
     connect_result := Raise SocketTimeout;
     ticks := []; final_send_result := Ok tt |}.

(** A quit event arrives in the first tick of a connection. *)
Definition quit_session : session_input :=
  {| socket_result := Ok tt; connect_result := Ok tt;
     ticks := [ {| events := [QUIT]; pressed := held [];
                   send_result := Ok tt |} ];
     final_send_result := Ok tt |}.

(** ** The throttle *)

(** Every value the throttle can take, starting from 0.5 in steps of
    0.1 with binary64 rounding. *)
Definition throttle_values : list float :=
  [ 0.0; 2.7755575615628914e-17; 1.3877787807814457e-16;
    0.1; 0.10000000000000003; 0.10000000000000014;
    0.2; 0.20000000000000004; 0.20000000000000015;
    0.30000000000000004; 0.30000000000000016;
    0.4; 0.40000000000000013;
    0.5; 0.5000000000000001;
    0.6; 0.6000000000000001;
    0.7; 0.7000000000000001;
    0.7999999999999999; 0.8;
    0.8999999999999999; 0.9;
    0.9999999999999999; 1.0 ]%float.

(** The throttle once the events [evs] have been handled, in this
    order, since the start of the program (over any number of ticks). *)
Definition speed_after (evs : list pg_event) : float :=
  current_speed (fst (handle_events initial_state evs)).

(** ** Binary64 rounding *)

(** What [k] right shifts leave of [m0]: its quotient by [2^k], and no
    round or sticky bit when the division is exact. *)
Definition shifted (m0 k : Z) (mrs : shr_record) : Prop :=
  shr_m mrs = m0 / 2 ^ k /\
  (m0 mod 2 ^ k = 0 -> shr_r mrs = false /\ shr_s mrs = false).

(** [M * 2^E] is a binary64 number in canonical form. *)
Definition canonical (M : positive) (E : Z) : Prop :=
  fexp prec emax (Zpos (digits2_pos M) + E) = E /\ E <= emax - prec.

(** The magnitude of [x] is at most [M * 2^E]. *)
Definition magnitude_le (x : spec_float) (M : positive) (E : Z) : bool :=
  match x with
  | S754_zero _ => true
  | S754_finite _ m e => (e <=? E) && (Zpos m <=? Zpos M * 2 ^ (E - e))
  | S754_infinity _ | S754_nan => false
  end.

(** 1.0 as a mantissa and an exponent. *)
Definition one_m : positive := 4503599627370496.
Definition one_e : Z := -52.

(** 255.0 as a mantissa and an exponent. *)
Definition max_power_m : positive := 8972014882652160.
Definition max_power_e : Z := -45.

(** ** The two halves of the mixer *)

(** The mixer is [raw_powers] followed by [scaled_command]
    ([mixer_split] below); only the second half depends on the speed. *)

(** Lines 33-59 of the mixer: the mixing up to the normalised powers. *)
Definition raw_powers (keys : keys_state) : res (Py.num * Py.num) :=
  let forward := keys K_w in
  let backward := keys K_s in
  let left := keys K_a in
  let right := keys K_d in
  let y_input := 0 in
  let x_input := 0 in
  let y_input := if forward then y_input + 1 else y_input in
  let y_input := if backward then y_input - 1 else y_input in
  let x_input := if left then x_input - 1 else x_input in
  let x_input := if right then x_input + 1 else x_input in
  let '(x_input, y_input) :=
    if negb (x_input =? 0) && negb (y_input =? 0)
    then (Py.mul (Py.Int x_input) (Py.Float 0.7071%float),
          Py.mul (Py.Int y_input) (Py.Float 0.7071%float))
    else (Py.Int x_input, Py.Int y_input) in
  let left_power_raw := Py.sub y_input x_input in
  let right_power_raw := Py.add y_input x_input in
  let max_raw_power :=
    Py.max (Py.abs left_power_raw) (Py.abs right_power_raw) in
  if Py.gt max_raw_power (Py.Float 1.0%float)
  then l <- Py.truediv left_power_raw max_raw_power ;;
       r <- Py.truediv right_power_raw max_raw_power ;;
       Ok (l, r)
  else Ok (left_power_raw, right_power_raw).

(** Lines 61-73 of the mixer: the scaling and the command. *)
Definition scaled_command (left_power_raw right_power_raw : Py.num)
  (current_speed : float) : res command :=
  let left_final_power :=
    Py.mul (Py.mul left_power_raw (Py.Float current_speed))
           (Py.Int MAX_MOTOR_POWER) in
  let right_final_power :=
    Py.mul (Py.mul right_power_raw (Py.Float current_speed))
           (Py.Int MAX_MOTOR_POWER) in
  fl <- Py.int left_final_power ;;
  bl <- Py.int left_final_power ;;
  fr <- Py.int right_final_power ;;
  br <- Py.int right_final_power ;;
  Ok {| front_left := fl; back_left := bl;
        front_right := fr; back_right := br;
        active := true |}.

(** The number has magnitude at most 1.0. *)
Definition unit_power (v : Py.num) : bool :=
  magnitude_le (Prim2SF (Py.to_float v)) one_m one_e.

(** ** Traces *)

(** An inactive command has all four powers at zero. *)
Definition stop_invariant (c : command) : Prop :=
  active c = false ->
  front_left c = 0 /\ back_left c = 0 /\
  front_right c = 0 /\ back_right c = 0.

(** What is handed to the socket respects it. *)
Definition wire_ok (a : action) : Prop :=
  match a with
  | Send c _ => stop_invariant c
  | _ => True
  end.

(** The actions of the [try] block: connecting, polling, shutdown
    marks, sends of well-formed commands, rendering and waiting. *)
Definition loop_action (a : action) : Prop :=
  match a with
  | Connect _ | Poll | Shutdown | Render _ _ | Tick30 => True
  | Send c _ => stop_invariant c
  | Close | Sleep _ | PygameQuit => False
  end.

(** The trace and the state of a result. *)
Definition trace_of {S B : Type} (x : S * trace * B) : trace := snd (fst x).
Definition state_of {S B : Type} (x : S * trace * B) : S := fst (fst x).

(** The least time an action takes, in seconds: only [time.sleep]
    is known to take any. *)
Definition duration (a : action) : Z :=
  match a with
  | Sleep seconds => seconds
  | _ => 0
  end.

(** The earliest times at which the connect attempts of a trace start,
    the trace starting at time [now]. *)
Fixpoint connect_times (now : Z) (tr : trace) : list Z :=
  match tr with
  | [] => []
  | a :: tr' =>
      match a with
      | Connect _ => now :: connect_times (now + duration a) tr'
      | _ => connect_times (now + duration a) tr'
      end
  end.

(** The commands that went out on the wire: the sends that succeeded. *)
Fixpoint delivered (tr : trace) : list command :=
  match tr with
  | [] => []
  | Send c (Ok _) :: tr' => c :: delivered tr'
  | _ :: tr' => delivered tr'
  end.

(** The commands handed to [sendall], whatever came of them. *)
Fixpoint sent (tr : trace) : list command :=
  match tr with
  | [] => []
  | Send c _ :: tr' => c :: sent tr'
  | _ :: tr' => sent tr'
  end.

(** The shutdown marks of a trace. *)
Definition is_shutdown (a : action) : bool :=
  match a with Shutdown => true | _ => false end.

Definition has_shutdown (tr : trace) : bool := existsb is_shutdown tr.


(** The actions that start a tick, a connection or a retry delay. *)
Definition starts_work (a : action) : bool :=
  match a with Poll | Connect _ | Sleep _ => true | _ => false end.
Definition is_send (a : action) : bool :=
  match a with Send _ _ => true | _ => false end.
Definition is_render (a : action) : bool :=
  match a with Render _ _ => true | _ => false end.
Definition is_wait (a : action) : bool :=
  match a with Tick30 => true | _ => false end.


(** How many actions of a trace satisfy [p]. *)
Definition count (p : action -> bool) (tr : trace) : nat :=
  length (filter p tr).


(** ** Intents and symmetries of the mixer *)

(** The directional intent of lines 39-44. *)
Definition y_intent (keys : keys_state) : Z :=
  let y_input := 0 in
  let y_input := if keys K_w then y_input + 1 else y_input in
  let y_input := if keys K_s then y_input - 1 else y_input in
  y_input.

Definition x_intent (keys : keys_state) : Z :=
  let x_input := 0 in
  let x_input := if keys K_a then x_input - 1 else x_input in
  let x_input := if keys K_d then x_input + 1 else x_input in
  x_input.

(** Whether a raw power is a zero (0), 1.0 (1) or -1.0 (-1). *)
Definition sign_class (v : Py.num) : option Z :=
  match Prim2SF (Py.to_float v) with
  | S754_zero _ => Some 0
  | S754_finite sg m e =>
      if (m =? one_m)%positive && (e =? one_e)
      then Some (if sg then -1 else 1)
      else None
  | S754_infinity _ | S754_nan => None
  end.

(** The keyboard with the left and right keys exchanged. *)
Definition mirror_keys (keys : keys_state) : keys_state :=
  fun k =>
    match k with
    | K_a => keys K_d
    | K_d => keys K_a
    | _ => keys k
    end.

(** The keyboard with forward and backward, and left and right,
    exchanged. *)
Definition reverse_keys (keys : keys_state) : keys_state :=
  fun k =>
    match k with
    | K_w => keys K_s
    | K_s => keys K_w
    | K_a => keys K_d
    | K_d => keys K_a
    | _ => keys k
    end.

(** A command with its two sides exchanged. *)
Definition swap_sides (c : command) : command :=
  {| front_left := front_right c; back_left := back_right c;
     front_right := front_left c; back_right := back_left c;
     active := active c |}.

(** ** Commands in range, and an idle client *)

(** All four powers are within the motor range. *)
Definition power_ok (c : command) : Prop :=
  Z.abs (front_left c) <= MAX_MOTOR_POWER /\
  Z.abs (back_left c) <= MAX_MOTOR_POWER /\
  Z.abs (front_right c) <= MAX_MOTOR_POWER /\
  Z.abs (back_right c) <= MAX_MOTOR_POWER.

Definition powers_ok (a : action) : Prop :=
  match a with
  | Send c _ => power_ok c
  | _ => True
  end.

(** What an idle client does: it only sends the stop command and
    renders the START button with no command. *)
Definition idle_action (a : action) : Prop :=
  match a with
  | Send c _ => c = stop_command
  | Render sending commands => sending = false /\ commands = None
  | _ => True
  end.

Definition is_click (ev : pg_event) : bool :=
  match ev with MOUSEBUTTONDOWN _ _ => true | _ => false end.

(** No mouse button goes down during the tick. *)
Definition no_click (inp : tick_input) : Prop :=
  existsb is_click (events inp) = false.

(** ** Inputs that carry no shutdown signal *)

Definition quit_event (ev : pg_event) : bool :=
  match ev with
  | QUIT | KEYDOWN K_ESCAPE => true
  | _ => false
  end.

(** What the event loop records of an event: lines 102 and 116 clear
    [running] for a quit event and for the escape key. *)
Definition signal_mark (ev : pg_event) : trace :=
  if quit_event ev then [Shutdown] else [].




(** The call went through or raised one of the four transport errors. *)
Definition transport_result (r : res unit) : bool :=
  match r with
  | Ok _ => true
  | Raise e => is_network_error e
  end.

Definition benign_tick (inp : tick_input) : bool :=
  negb (existsb quit_event (events inp)) &&
  transport_result (send_result inp).

(** No quit event, no escape key, and the socket calls of the [try]
    block raise nothing but transport errors (the last send of the
    [finally] clause may raise anything). *)
Definition benign_session (inp : session_input) : bool :=
  transport_result (socket_result inp) &&
  transport_result (connect_result inp) &&
  forallb benign_tick (ticks inp).

(** ** The life of the socket *)

(** The command is the stop command, field by field. *)
Definition is_stop (c : command) : bool :=
  (front_left c =? 0) && (back_left c =? 0) &&
  (front_right c =? 0) && (back_right c =? 0) && negb (active c).

(** Where the client stands between two actions: nothing done yet
    ([Fresh]), no socket and the retry delay taken ([Delayed]), no
    socket ([Down]), a socket whose connect failed ([HalfOpen]), the
    same after the stop command was handed to it ([Spent]), a connected
    socket ([Up]), the same when the last thing done was to hand it the
    stop command ([Stopped]), [pygame.quit()] called ([Done]). *)
Inductive link : Type :=
| Fresh | Delayed | Down | HalfOpen | Spent | Up | Stopped | Done.

(** The actions allowed in each situation, and where they lead. *)
Definition link_step (q : link) (a : action) : option link :=
  match a, q with
  | Connect (Ok _), (Fresh | Delayed) => Some Up
  | Connect (Raise _), (Fresh | Delayed) => Some HalfOpen
  | (Poll | Render _ _ | Tick30), (Up | Stopped) => Some Up
  | Send c _, (Up | Stopped) => Some (if is_stop c then Stopped else Up)
  | Send c _, HalfOpen => if is_stop c then Some Spent else None
  | Shutdown, (Up | Stopped) => Some Up
  | Shutdown, HalfOpen => Some HalfOpen
  | Shutdown, (Fresh | Delayed) => Some Down
  | Close, (Stopped | Spent) => Some Down
  | Sleep seconds, (Fresh | Delayed | Down) =>
      if seconds =? 5 then Some Delayed else None
  | PygameQuit, (Fresh | Down) => Some Done
  | _, _ => None
  end.

(** A connected socket is at hand. *)
Definition on_line (q : link) : bool :=
  match q with
  | Up | Stopped => true
  | _ => false
  end.

Fixpoint link_run (q : link) (tr : trace) : option link :=
  match tr with
  | [] => Some q
  | a :: tr' =>
      match link_step q a with
      | Some q' => link_run q' tr'
      | None => None
      end
  end.

(** Consecutive times are at least 5 seconds apart. *)
Fixpoint spaced (times : list Z) : bool :=
  match times with
  | a :: (b :: _) as rest => (a + 5 <=? b) && spaced rest
  | _ => true
  end.

(** Forward is held and the up key pressed during three ticks, one of
    which loses the connection, without any click. *)
Definition keys_without_click : list session_input :=
  [ {| socket_result := Ok tt; connect_result := Ok tt;
       ticks := [ {| events := [KEYDOWN K_UP]; pressed := held [K_w];
                     send_result := Ok tt |};
                  {| events := [KEYDOWN K_SPACE]; pressed := held [K_w];
                     send_result := Raise BrokenPipeError |} ];
       final_send_result := Raise BrokenPipeError |};
    {| socket_result := Ok tt; connect_result := Ok tt;
       ticks := [ {| events := [OTHER_EVENT]; pressed := held [K_w; K_d];
                     send_result := Ok tt |} ];
       final_send_result := Ok tt |} ].

(** What is known of the clock in each situation: [last] is the time of
    the last connect attempt and [now] the present time. *)
Definition clock_ok (q : link) (last now : Z) : Prop :=
  match q with
  | Fresh | Delayed => last + 5 <= now
  | _ => last <= now
  end.

(** ** An unreachable peer *)

(** The socket is created and its connect raises a transport error. *)
Definition connect_fails (inp : session_input) : bool :=
  match socket_result inp, connect_result inp with
  | Ok _, Raise e => is_network_error e
  | _, _ => false
  end.

(** What the client does about one such attempt. *)
Definition failed_attempt (inp : session_input) : trace :=
  match connect_result inp with
  | Raise e =>
      [Connect (Raise e); Send stop_command (final_send_result inp);
       Close; Sleep 5]
  | Ok _ => []
  end.

(** The peer refuses while a quit event is waiting. *)
Definition refused_with_quit_waiting : session_input :=
  {| socket_result := Ok tt;
     connect_result := Raise ConnectionRefusedError;
     ticks := [ {| events := [QUIT]; pressed := held [];
                   send_result := Ok tt |} ];
     final_send_result := Raise BrokenPipeError |}.

(** * Properties of the mixer *)

Lemma bind_Ok {A B : Type} (m : res A) (k : A -> res B) (b : B) :
  bind m k = Ok b -> exists a, m = Ok a /\ k a = Ok b.
Proof.
  destruct m as [a|e]; simpl; intros H; [eauto | discriminate].
Qed.

(** The two [int()] calls on one power agree. *)
Lemma int_twice {A : Type} (v : Py.num) (k : Z -> Z -> res A) (a : A) :
  (x <- Py.int v ;; y <- Py.int v ;; k x y) = Ok a ->
  exists z : Z, Py.int v = Ok z /\ k z z = Ok a.
Proof.
  intros H. apply bind_Ok in H. destruct H as [x [Hx H]].
  rewrite Hx in H. simpl in H. eauto.
Qed.

Lemma mixer_active (keys : keys_state) (speed : float) (c : command) :
  get_keyboard_inputs_from_pygame keys speed = Ok c -> active c = true.
Proof.
  unfold get_keyboard_inputs_from_pygame. cbv zeta.
  destruct (negb _ && negb _); intros H.
  all: apply bind_Ok in H; destruct H as [[l r] [_ H]].
  all: apply int_twice in H; destruct H as [zl [_ H]].
  all: apply int_twice in H; destruct H as [zr [_ H]].
  all: injection H as <-; reflexivity.
Qed.

(** C10: whatever keys are held and whatever the speed, a command that the
    mixer returns drives the two motors of a side with the same power
    and is marked active. *)
Theorem mixer_sides_paired (keys : keys_state) (speed : float) (c : command) :
  get_keyboard_inputs_from_pygame keys speed = Ok c ->
  front_left c = back_left c /\ front_right c = back_right c /\
  active c = true.
Proof.
  unfold get_keyboard_inputs_from_pygame.
  cbv zeta.
  destruct (negb _ && negb _); intros H.
  all: apply bind_Ok in H; destruct H as [[l r] [_ H]].
  all: apply bind_Ok in H; destruct H as [fl [Hfl H]].
  all: apply bind_Ok in H; destruct H as [bl [Hbl H]].
  all: apply bind_Ok in H; destruct H as [fr [Hfr H]].
  all: apply bind_Ok in H; destruct H as [br [Hbr H]].
  all: injection H as <-; simpl.
  all: rewrite Hfl in Hbl; rewrite Hfr in Hbr.
  all: injection Hbl as ->; injection Hbr as ->; auto.
Qed.

Lemma mixer_sides_paired_witness :
  front_left half_speed_left_turn = back_left half_speed_left_turn /\
  front_right half_speed_left_turn = back_right half_speed_left_turn /\
  active half_speed_left_turn = true.
Proof.
  apply (mixer_sides_paired (held [K_w; K_a]) 0.5%float).
  vm_compute. reflexivity.
Defined.

(** C5: with only the forward key held, at speed 1.0 and with
    [MAX_MOTOR_POWER = 255], all four power fields are 255. *)
Theorem mixer_full_forward (keys : keys_state) :
  keys K_w = true -> keys K_s = false ->
  keys K_a = false -> keys K_d = false ->
  MAX_MOTOR_POWER = 255 /\
  get_keyboard_inputs_from_pygame keys 1.0%float =
    Ok {| front_left := 255; back_left := 255;
          front_right := 255; back_right := 255; active := true |}.
Proof.
  intros Hw Hs Ha Hd. split; [reflexivity|].
  unfold get_keyboard_inputs_from_pygame.
  rewrite Hw, Hs, Ha, Hd.
  vm_compute. reflexivity.
Qed.

Lemma mixer_full_forward_witness :
  MAX_MOTOR_POWER = 255 /\
  get_keyboard_inputs_from_pygame (held [K_w]) 1.0%float =
    Ok {| front_left := 255; back_left := 255;
          front_right := 255; back_right := 255; active := true |}.
Proof.
  apply (mixer_full_forward (held [K_w])); reflexivity.
Defined.

(** C7: with only the right key held (intent (1,0)), at speed 1.0 and
    with [MAX_MOTOR_POWER = 255], the two sides get powers of magnitude
    255 and opposite signs: left 255 and right -255, or the opposite
    signs. The code mixes [left = y - x] and [right = y + x], so that it
    is the left side that gets -255 and the right side +255. *)
Theorem mixer_right_turn (keys : keys_state) :
  keys K_w = false -> keys K_s = false ->
  keys K_a = false -> keys K_d = true ->
  MAX_MOTOR_POWER = 255 /\
  exists c : command,
    get_keyboard_inputs_from_pygame keys 1.0%float = Ok c /\
    ((front_left c = 255 /\ front_right c = -255) \/
     (front_left c = -255 /\ front_right c = 255)) /\
    Z.abs (front_left c) = 255 /\ Z.abs (front_right c) = 255 /\
    front_left c = - front_right c /\
    c = {| front_left := -255; back_left := -255;
           front_right := 255; back_right := 255; active := true |}.
Proof.
  intros Hw Hs Ha Hd. split; [reflexivity|].
  unfold get_keyboard_inputs_from_pygame.
  rewrite Hw, Hs, Ha, Hd.
  eexists. split; [vm_compute; reflexivity|].
  cbn [front_left front_right].
  split; [right; split; reflexivity|].
  repeat split; reflexivity.
Qed.

Lemma mixer_right_turn_witness :
  MAX_MOTOR_POWER = 255 /\
  exists c : command,
    get_keyboard_inputs_from_pygame (held [K_d]) 1.0%float = Ok c /\
    ((front_left c = 255 /\ front_right c = -255) \/
     (front_left c = -255 /\ front_right c = 255)) /\
    Z.abs (front_left c) = 255 /\ Z.abs (front_right c) = 255 /\
    front_left c = - front_right c /\
    c = {| front_left := -255; back_left := -255;
           front_right := 255; back_right := 255; active := true |}.
Proof.
  apply (mixer_right_turn (held [K_d])); reflexivity.
Defined.

(** * The throttle stays in range *)

Ltac in_list := simpl; repeat (first [left; reflexivity | right]).

Ltac each_throttle_value H :=
  unfold throttle_values in H; simpl in H;
  repeat (destruct H as [H|H]; [subst|]); [..|contradiction].

Lemma increase_speed_closed (s : float) :
  In s throttle_values -> In (increase_speed s) throttle_values.
Proof.
  intros H. each_throttle_value H.
  all: vm_compute; in_list.
Qed.

Lemma decrease_speed_closed (s : float) :
  In s throttle_values -> In (decrease_speed s) throttle_values.
Proof.
  intros H. each_throttle_value H.
  all: vm_compute; in_list.
Qed.

Lemma throttle_values_bounded (s : float) :
  In s throttle_values ->
  (0.0 <=? s)%float = true /\ (s <=? 1.0)%float = true.
Proof.
  intros H. each_throttle_value H.
  all: split; vm_compute; reflexivity.
Qed.

Lemma throttle_values_saturate (s : float) :
  In s throttle_values ->
  Nat.iter 11 increase_speed s = 1.0%float /\
  Nat.iter 11 decrease_speed s = 0.0%float.
Proof.
  intros H. each_throttle_value H.
  all: split; vm_compute; reflexivity.
Qed.

Lemma handle_event_speed (st : state) (ev : pg_event) :
  In (current_speed st) throttle_values ->
  In (current_speed (fst (handle_event st ev))) throttle_values.
Proof.
  intros H. destruct ev as [|b pos|k|]; try exact H.
  - unfold handle_event.
    destruct (b =? 1); [destruct (collidepoint _ _)|]; exact H.
  - destruct k; try exact H.
    + now apply increase_speed_closed.
    + now apply decrease_speed_closed.
Qed.

Lemma handle_events_speed (evs : list pg_event) (st : state) :
  In (current_speed st) throttle_values ->
  In (current_speed (fst (handle_events st evs))) throttle_values.
Proof.
  revert st. induction evs as [|ev evs IH]; intros st H; simpl; auto.
  pose proof (handle_event_speed st ev H) as H1.
  destruct (handle_event st ev) as [st1 tr1]; simpl in H1.
  specialize (IH st1 H1).
  destruct (handle_events st1 evs) as [st2 tr2]; simpl in *; auto.
Qed.

Lemma initial_speed_in : In (current_speed initial_state) throttle_values.
Proof. simpl. unfold initial_speed. in_list. Qed.

Lemma iter_fixed {A : Type} (f : A -> A) (x : A) (n : nat) :
  f x = x -> Nat.iter n f x = x.
Proof.
  intros H. induction n as [|n IH]; simpl; [reflexivity|].
  rewrite IH. exact H.
Qed.

Lemma iter_plus {A : Type} (f : A -> A) (x : A) (n m : nat) :
  Nat.iter (n + m) f x = Nat.iter n f (Nat.iter m f x).
Proof.
  induction n as [|n IH]; simpl; [reflexivity|]. now rewrite IH.
Qed.

Lemma handle_events_app (a b : list pg_event) (st : state) :
  handle_events st (a ++ b) =
  let '(st1, tr1) := handle_events st a in
  let '(st2, tr2) := handle_events st1 b in
  (st2, tr1 ++ tr2).
Proof.
  revert st. induction a as [|ev a IH]; intros st; simpl.
  - destruct (handle_events st b); reflexivity.
  - destruct (handle_event st ev) as [st1 tr1]. rewrite IH.
    destruct (handle_events st1 a) as [st2 tr2].
    destruct (handle_events st2 b) as [st3 tr3].
    now rewrite app_assoc.
Qed.

Lemma speed_after_app (a b : list pg_event) :
  speed_after (a ++ b) =
  current_speed (fst (handle_events (fst (handle_events initial_state a)) b)).
Proof.
  unfold speed_after. rewrite handle_events_app.
  destruct (handle_events initial_state a) as [st1 tr1]. cbn [fst].
  destruct (handle_events st1 b) as [st2 tr2]. reflexivity.
Qed.

Lemma handle_events_ups (k : nat) (st : state) :
  current_speed (fst (handle_events st (repeat (KEYDOWN K_UP) k))) =
  Nat.iter k increase_speed (current_speed st).
Proof.
  revert st. induction k as [|k IH]; intros st; [reflexivity|].
  rewrite Nat.iter_succ_r. cbn [repeat handle_events handle_event].
  specialize (IH (set_current_speed (increase_speed (current_speed st)) st)).
  destruct (handle_events _ (repeat (KEYDOWN K_UP) k)) as [st2 tr2].
  exact IH.
Qed.

Lemma handle_events_downs (k : nat) (st : state) :
  current_speed (fst (handle_events st (repeat (KEYDOWN K_DOWN) k))) =
  Nat.iter k decrease_speed (current_speed st).
Proof.
  revert st. induction k as [|k IH]; intros st; [reflexivity|].
  rewrite Nat.iter_succ_r. cbn [repeat handle_events handle_event].
  specialize (IH (set_current_speed (decrease_speed (current_speed st)) st)).
  destruct (handle_events _ (repeat (KEYDOWN K_DOWN) k)) as [st2 tr2].
  exact IH.
Qed.

(** C8: whatever events have been handled since the start, where the
    speed is 0.5, the throttle is within [0.0, 1.0]; and from there
    eleven or more up-key presses in a row leave it at exactly 1.0,
    eleven or more down-key presses at exactly 0.0: presses beyond the
    bound are clamped. *)
Theorem throttle_bounds (evs : list pg_event) (n : nat) :
  ((0.0 <=? speed_after evs)%float = true /\
   (speed_after evs <=? 1.0)%float = true) /\
  speed_after (evs ++ repeat (KEYDOWN K_UP) (11 + n)) = 1.0%float /\
  speed_after (evs ++ repeat (KEYDOWN K_DOWN) (11 + n)) = 0.0%float.
Proof.
  assert (Hs : In (speed_after evs) throttle_values)
    by (apply handle_events_speed, initial_speed_in).
  split; [exact (throttle_values_bounded _ Hs)|].
  rewrite !speed_after_app, handle_events_ups, handle_events_downs.
  fold (speed_after evs).
  rewrite Nat.add_comm, !iter_plus.
  destruct (throttle_values_saturate _ Hs) as [-> ->].
  split; apply iter_fixed; vm_compute; reflexivity.
Qed.

(** * Rounding to binary64 never crosses a representable bound *)

Lemma pow2_pos (k : Z) : 0 <= k -> 0 < 2 ^ k.
Proof. intros; apply Z.pow_pos_nonneg; lia. Qed.

Lemma pow2_add (a b : Z) : 0 <= a -> 0 <= b -> 2 ^ (a + b) = 2 ^ a * 2 ^ b.
Proof. intros; apply Z.pow_add_r; assumption. Qed.

(** [digits2_pos m] is the bit length of [m]. *)
Lemma digits2_pos_bounds (m : positive) :
  2 ^ (Zpos (digits2_pos m) - 1) <= Zpos m < 2 ^ Zpos (digits2_pos m).
Proof.
  induction m as [p IH|p IH|]; simpl digits2_pos.
  - rewrite Pos2Z.inj_succ.
    replace (Z.succ (Zpos (digits2_pos p)) - 1)
      with (Z.succ (Zpos (digits2_pos p) - 1)) by lia.
    rewrite !Z.pow_succ_r by lia. lia.
  - rewrite Pos2Z.inj_succ.
    replace (Z.succ (Zpos (digits2_pos p)) - 1)
      with (Z.succ (Zpos (digits2_pos p) - 1)) by lia.
    rewrite !Z.pow_succ_r by lia. lia.
  - simpl. lia.
Qed.

Lemma digits2_pos_le (m M : positive) (k : Z) :
  0 <= k -> Zpos m <= Zpos M * 2 ^ k ->
  Zpos (digits2_pos m) <= Zpos (digits2_pos M) + k.
Proof.
  intros Hk Hle.
  pose proof (digits2_pos_bounds m) as [Hm _].
  pose proof (digits2_pos_bounds M) as [_ HM].
  pose proof (pow2_pos k Hk) as Hp.
  assert (Hlt : 2 ^ (Zpos (digits2_pos m) - 1)
                < 2 ^ (Zpos (digits2_pos M) + k)).
  { rewrite pow2_add by lia. nia. }
  apply Z.pow_lt_mono_r_iff in Hlt; lia.
Qed.

Lemma shifted_0 (m0 : Z) : shifted m0 0 (Build_shr_record m0 false false).
Proof. split; simpl; [now rewrite Z.div_1_r | auto]. Qed.

Lemma shr_1_shifted (m0 k : Z) (mrs : shr_record) :
  0 <= m0 -> 0 <= k ->
  shifted m0 k mrs -> shifted m0 (k + 1) (shr_1 mrs).
Proof.
  intros Hm0 Hk [Hm Hex].
  pose proof (pow2_pos k Hk) as Hp.
  unfold shifted. rewrite pow2_add by lia. change (2 ^ 1) with 2.
  assert (Hq : m0 / (2 ^ k * 2) = shr_m mrs / 2)
    by (rewrite Hm, Z.div_div by lia; reflexivity).
  assert (Hnn : 0 <= shr_m mrs) by (rewrite Hm; apply Z.div_pos; lia).
  assert (Heven : m0 mod (2 ^ k * 2) = 0 ->
                  m0 mod 2 ^ k = 0 /\ shr_m mrs mod 2 = 0).
  { intros H0.
    pose proof (Z.div_mod m0 (2 ^ k * 2) ltac:(lia)) as Hdm.
    rewrite H0, Z.add_0_r in Hdm.
    assert (Hm0' : m0 = (2 * (m0 / (2 ^ k * 2))) * 2 ^ k) by lia.
    split.
    - rewrite Hm0'. apply Z.mod_mul. lia.
    - rewrite Hm, Hm0', Z.div_mul by lia.
      rewrite Z.mul_comm. apply Z.mod_mul. lia. }
  destruct mrs as [m r s]; simpl in *.
  destruct m as [|[p|p|]|p]; simpl; try lia.
  - split; [rewrite Hq; reflexivity|].
    intros H0. destruct (Heven H0) as [H1 _].
    destruct (Hex H1) as [-> ->]. auto.
  - split; [rewrite Hq; rewrite Pos2Z.inj_xI, Z.mul_comm, Z.div_add_l by lia;
            reflexivity|].
    intros H0. destruct (Heven H0) as [_ H2].
    rewrite Pos2Z.inj_xI, Z.add_comm, Z.mul_comm, Z.mod_add in H2 by lia.
    discriminate.
  - split; [rewrite Hq; rewrite Pos2Z.inj_xO, Z.mul_comm, Z.div_mul by lia;
            reflexivity|].
    intros H0. destruct (Heven H0) as [H1 _].
    destruct (Hex H1) as [-> ->]. auto.
  - split; [rewrite Hq; reflexivity|].
    intros H0. destruct (Heven H0) as [_ H2]. discriminate.
Qed.

Lemma iter_pos_ind {A : Type} (f : A -> A) (P : Z -> A -> Prop) :
  (forall k x, 0 <= k -> P k x -> P (k + 1) (f x)) ->
  forall (p : positive) (k : Z) (x : A),
    0 <= k -> P k x -> P (k + Zpos p) (iter_pos f p x).
Proof.
  intros Hstep. induction p as [p IH|p IH|]; intros k x Hk Hx; simpl.
  - replace (k + Zpos p~1) with (k + 1 + Zpos p + Zpos p) by lia.
    apply IH; [lia|]. apply IH; [lia|]. now apply Hstep.
  - replace (k + Zpos p~0) with (k + Zpos p + Zpos p) by lia.
    apply IH; [lia|]. now apply IH.
  - now apply Hstep.
Qed.

Lemma shr_shifted (m0 e n : Z) :
  0 <= m0 ->
  exists mrs,
    shr (Build_shr_record m0 false false) e n = (mrs, e + Z.max n 0) /\
    shifted m0 (Z.max n 0) mrs.
Proof.
  intros Hm0. destruct n as [|p|p]; simpl shr.
  - eexists; split; [rewrite Z.add_0_r; reflexivity | apply shifted_0].
  - eexists; split; [reflexivity|].
    rewrite Z.max_l by lia.
    apply (iter_pos_ind shr_1 (shifted m0)
             (fun k x Hk => shr_1_shifted m0 k x Hm0 Hk) p 0);
      [lia | apply shifted_0].
  - eexists; split; [rewrite Z.add_0_r; reflexivity | apply shifted_0].
Qed.

Lemma round_nearest_even_le (m0 k K : Z) (mrs : shr_record) :
  0 <= m0 -> 0 <= k -> shifted m0 k mrs -> m0 <= K * 2 ^ k ->
  0 <= round_nearest_even (shr_m mrs) (loc_of_shr_record mrs) <= K.
Proof.
  intros Hm0 Hk [Hm Hex] Hle.
  pose proof (pow2_pos k Hk) as Hp.
  pose proof (Z.div_mod m0 (2 ^ k) ltac:(lia)) as Hdm.
  pose proof (Z.mod_pos_bound m0 (2 ^ k) Hp) as Hrem.
  destruct mrs as [m r s]; simpl in *. rewrite <- Hm in Hdm.
  assert (Hinexact : r = true -> 0 < m0 mod 2 ^ k).
  { intros ->. destruct (Z.eq_dec (m0 mod 2 ^ k) 0) as [H0|]; [|lia].
    destruct (Hex H0); discriminate. }
  destruct r, s; simpl; try destruct (Z.even m);
    try specialize (Hinexact eq_refl); nia.
Qed.

(** The exponent function of binary64. *)
Lemma fexp_binary64 (e : Z) : fexp prec emax e = Z.max (e - 53) (-1074).
Proof. reflexivity. Qed.

Lemma shr_fexp_le (m e : Z) (M : positive) (E : Z) :
  0 <= m -> canonical M E -> e <= E -> m <= Zpos M * 2 ^ (E - e) ->
  exists mrs e',
    shr_fexp prec emax m e loc_Exact = (mrs, e') /\
    e <= e' <= E /\ shifted m (e' - e) mrs.
Proof.
  intros Hm [Hcan _] He Hle. unfold shr_fexp. simpl shr_record_of_loc.
  destruct (shr_shifted m e (fexp prec emax (Zdigits2 m + e) - e) Hm)
    as [mrs [Heq Hsh]].
  exists mrs, (e + Z.max (fexp prec emax (Zdigits2 m + e) - e) 0).
  split; [exact Heq|].
  replace (e + Z.max (fexp prec emax (Zdigits2 m + e) - e) 0 - e)
    with (Z.max (fexp prec emax (Zdigits2 m + e) - e) 0) by lia.
  split; [|exact Hsh].
  rewrite fexp_binary64 in *.
  destruct m as [|p|p]; simpl Zdigits2; [lia | | lia].
  pose proof (digits2_pos_le p M (E - e) ltac:(lia) Hle). lia.
Qed.

(** Rounding a magnitude that is at most a binary64 number gives at
    most that number. *)
Lemma binary_round_aux_le (sx : bool) (mx : positive) (ex : Z)
  (M : positive) (E : Z) :
  canonical M E -> ex <= E -> Zpos mx <= Zpos M * 2 ^ (E - ex) ->
  magnitude_le (binary_round_aux prec emax sx (Zpos mx) ex loc_Exact) M E
  = true.
Proof.
  intros Hcan Hex Hle. unfold binary_round_aux.
  destruct (shr_fexp_le (Zpos mx) ex M E ltac:(lia) Hcan Hex Hle)
    as [mrs1 [e1 [-> [He1 Hsh1]]]].
  assert (Hr : 0 <= round_nearest_even (shr_m mrs1) (loc_of_shr_record mrs1)
               <= Zpos M * 2 ^ (E - e1)).
  { apply (round_nearest_even_le (Zpos mx) (e1 - ex)); try lia; [exact Hsh1|].
    rewrite <- Z.mul_assoc, <- pow2_add by lia.
    replace (E - e1 + (e1 - ex)) with (E - ex) by lia. exact Hle. }
  set (mr := round_nearest_even _ _) in *.
  destruct (shr_fexp_le mr e1 M E ltac:(lia) Hcan ltac:(lia) ltac:(lia))
    as [mrs2 [e2 [-> [He2 [Hm2 _]]]]].
  assert (Hb : 0 <= shr_m mrs2 <= Zpos M * 2 ^ (E - e2)).
  { rewrite Hm2.
    pose proof (pow2_pos (e2 - e1) ltac:(lia)) as Hp.
    split; [apply Z.div_pos; lia|].
    apply Z.div_le_upper_bound; [lia|].
    rewrite (Z.mul_comm (2 ^ (e2 - e1))), <- Z.mul_assoc, <- pow2_add by lia.
    replace (E - e2 + (e2 - e1)) with (E - e1) by lia. lia. }
  destruct Hcan as [_ HE].
  destruct (shr_m mrs2) as [|m|m]; [reflexivity | | lia].
  rewrite (proj2 (Z.leb_le e2 (emax - prec))) by lia.
  cbn [magnitude_le]. apply andb_true_iff.
  split; apply Z.leb_le; lia.
Qed.

Lemma magnitude_le_finite (s : bool) (m : positive) (e : Z)
  (M : positive) (E : Z) :
  magnitude_le (S754_finite s m e) M E = true ->
  e <= E /\ Zpos m <= Zpos M * 2 ^ (E - e).
Proof.
  cbn [magnitude_le]. intros H. apply andb_true_iff in H. destruct H as [H1 H2].
  apply Z.leb_le in H1, H2. auto.
Qed.

(** Multiplying by a factor of magnitude at most 1.0 keeps a bound. *)
Lemma SF64mul_le (x y : spec_float) (M : positive) (E : Z) :
  canonical M E ->
  magnitude_le x one_m one_e = true -> magnitude_le y M E = true ->
  magnitude_le (SF64mul x y) M E = true.
Proof.
  intros Hcan Hx Hy.
  destruct x as [sx|sx| |sx mx ex]; try discriminate;
    destruct y as [sy|sy| |sy my ey]; try discriminate; try reflexivity.
  apply magnitude_le_finite in Hx, Hy. unfold one_m, one_e in Hx.
  destruct Hx as [Hex Hmx], Hy as [Hey Hmy].
  unfold SF64mul, SFmul. apply binary_round_aux_le; [exact Hcan | lia |].
  rewrite Pos2Z.inj_mul.
  replace (E - (ex + ey)) with ((-52 - ex) + 52 + (E - ey)) by lia.
  rewrite !pow2_add by lia.
  pose proof (pow2_pos (-52 - ex) ltac:(lia)).
  pose proof (pow2_pos (E - ey) ltac:(lia)).
  change (2 ^ 52) with 4503599627370496 in *.
  nia.
Qed.

Lemma canonical_one : canonical one_m one_e.
Proof. split; [reflexivity | discriminate]. Qed.

Lemma canonical_max_power : canonical max_power_m max_power_e.
Proof. split; [reflexivity | discriminate]. Qed.

(** A float between 0.0 and 1.0 has magnitude at most 1.0. *)
Lemma unit_interval (s : float) :
  (0.0 <=? s)%float = true -> (s <=? 1.0)%float = true ->
  magnitude_le (Prim2SF s) one_m one_e = true.
Proof.
  rewrite !leb_spec.
  change (Prim2SF 0.0) with (S754_zero false).
  change (Prim2SF 1.0) with (S754_finite false one_m one_e).
  pose proof (Prim2SF_valid s) as Hv.
  destruct (Prim2SF s) as [sg|sg| |sg m e]; try reflexivity;
    try (destruct sg; discriminate); try discriminate.
  destruct sg; [discriminate|]. intros _.
  unfold SFleb, SFcompare, one_m, one_e.
  cbn [valid_binary] in Hv. unfold bounded, canonical_mantissa in Hv.
  apply andb_true_iff in Hv. destruct Hv as [Hc _].
  apply Z.eqb_eq in Hc. rewrite fexp_binary64 in Hc.
  pose proof (digits2_pos_bounds m) as [_ Hd].
  cbn [magnitude_le]. intros Hle.
  apply andb_true_iff.
  destruct (Z.compare_spec e (-52)) as [->|Hlt|Hgt]; try discriminate.
  - split; [reflexivity|]. apply Z.leb_le.
    change (2 ^ (-52 - -52)) with 1.
    pose proof (Pos.compare_spec m 4503599627370496) as Hcmp.
    unfold Pos.compare in Hcmp.
    destruct Hcmp as [Hcmp|Hcmp|Hcmp]; [lia | | discriminate].
    apply Pos2Z.pos_lt_pos in Hcmp. lia.
  - split; [apply Z.leb_le; lia|]. apply Z.leb_le.
    assert (H53 : 2 ^ Zpos (digits2_pos m) <= 2 ^ 53)
      by (apply Z.pow_le_mono_r; lia).
    assert (H1 : 2 ^ 1 <= 2 ^ (-52 - e))
      by (apply Z.pow_le_mono_r; lia).
    change (2 ^ 53) with 9007199254740992 in H53.
    change (2 ^ 1) with 2 in H1. lia.
Qed.

(** A float of magnitude at most 255.0 truncates to an integer of
    magnitude at most 255. *)
Lemma trunc_SF_le (x : spec_float) :
  magnitude_le x max_power_m max_power_e = true ->
  exists z : Z, Py.trunc_SF x = Some z /\ Z.abs z <= 255.
Proof.
  destruct x as [sg|sg| |sg m e]; try discriminate.
  - intros _. exists 0. split; [reflexivity | simpl; lia].
  - intros H. apply magnitude_le_finite in H.
    unfold max_power_m, max_power_e in H. destruct H as [He Hm].
    destruct e as [|k|k]; try lia.
    exists (if sg then - Z.shiftr (Zpos m) (Zpos k)
            else Z.shiftr (Zpos m) (Zpos k)).
    split; [reflexivity|].
    rewrite Z.shiftr_div_pow2 by lia.
    assert (Hq : 0 <= Zpos m / 2 ^ Zpos k <= 255).
    { pose proof (pow2_pos (Zpos k) ltac:(lia)) as Hp.
      split; [apply Z.div_pos; lia|].
      apply Z.div_le_upper_bound; [lia|].
      replace (2 ^ Zpos k) with (2 ^ 45 * 2 ^ (-45 - Zneg k))
        by (rewrite <- pow2_add by lia; f_equal; lia).
      change (2 ^ 45) with 35184372088832. lia. }
    destruct sg; lia.
Qed.

(** * The mixer keeps within the motor range *)

Lemma mixer_split (keys : keys_state) (speed : float) :
  get_keyboard_inputs_from_pygame keys speed =
  ('(l, r) <- raw_powers keys ;; scaled_command l r speed).
Proof.
  unfold get_keyboard_inputs_from_pygame, raw_powers.
  destruct (keys K_w), (keys K_s), (keys K_a), (keys K_d); reflexivity.
Qed.

Lemma raw_powers_unit (keys : keys_state) :
  exists l r : Py.num,
    raw_powers keys = Ok (l, r) /\
    unit_power l = true /\ unit_power r = true.
Proof.
  unfold raw_powers.
  destruct (keys K_w), (keys K_s), (keys K_a), (keys K_d).
  all: match goal with
       | |- exists l r, ?X = _ /\ _ =>
           let v := eval vm_compute in X in
           match v with
           | Ok (?a, ?b) =>
               exists a, b; split; [vm_compute; reflexivity|];
               split; vm_compute; reflexivity
           end
       end.
Qed.

Lemma scaled_power_bound (raw : Py.num) (speed : float) :
  unit_power raw = true ->
  magnitude_le (Prim2SF speed) one_m one_e
    = true ->
  exists z : Z,
    Py.int (Py.mul (Py.mul raw (Py.Float speed)) (Py.Int MAX_MOTOR_POWER))
      = Ok z /\
    Z.abs z <= MAX_MOTOR_POWER.
Proof.
  intros Hraw Hspeed.
  assert (Hmax : Py.float_of_int MAX_MOTOR_POWER = 255.0%float)
    by (vm_compute; reflexivity).
  assert (E : Py.mul (Py.mul raw (Py.Float speed)) (Py.Int MAX_MOTOR_POWER)
              = Py.Float (Py.to_float raw * speed * 255.0)%float).
  { destruct raw; unfold Py.mul, Py.arith, Py.to_float;
      rewrite Hmax; reflexivity. }
  rewrite E. cbn [Py.int]. rewrite !mul_spec.
  destruct (trunc_SF_le
              (SF64mul (SF64mul (Prim2SF (Py.to_float raw)) (Prim2SF speed))
                       (Prim2SF 255.0%float))) as [z [-> Hz]].
  - apply SF64mul_le.
    + exact canonical_max_power.
    + apply SF64mul_le;
        [exact canonical_one | exact Hraw | exact Hspeed].
    + vm_compute. reflexivity.
  - exists z. split; [reflexivity | exact Hz].
Qed.

(** Whatever keys are held, at a speed between 0.0 and 1.0 the mixer
    returns a command and none of its powers exceeds [MAX_MOTOR_POWER]
    in magnitude. *)
Lemma mixer_power_bounded (keys : keys_state) (speed : float) :
  (0.0 <=? speed)%float = true -> (speed <=? 1.0)%float = true ->
  exists c : command,
    get_keyboard_inputs_from_pygame keys speed = Ok c /\
    Z.abs (front_left c) <= MAX_MOTOR_POWER /\
    Z.abs (back_left c) <= MAX_MOTOR_POWER /\
    Z.abs (front_right c) <= MAX_MOTOR_POWER /\
    Z.abs (back_right c) <= MAX_MOTOR_POWER.
Proof.
  intros H0 H1.
  pose proof (unit_interval speed H0 H1) as Hs.
  rewrite mixer_split.
  destruct (raw_powers_unit keys) as (l & r & -> & Hl & Hr).
  cbn [bind]. unfold scaled_command.
  destruct (scaled_power_bound l speed Hl Hs) as [zl [-> Hzl]].
  destruct (scaled_power_bound r speed Hr Hs) as [zr [-> Hzr]].
  cbn [bind]. eexists. split; [reflexivity|].
  cbn [front_left back_left front_right back_right]. auto.
Qed.

(** C6: with the forward and the right key held (intent (1,1)), the
    scaling by 0.7071, the mixing and the normalisation leave the raw
    powers 0.0 and 1.0, and at any speed between 0.0 and 1.0 the mixer
    returns a command in which no wheel's power exceeds
    [MAX_MOTOR_POWER] in magnitude. *)
Theorem mixer_diagonal_bounded (keys : keys_state) (speed : float) :
  keys K_w = true -> keys K_s = false ->
  keys K_a = false -> keys K_d = true ->
  (0.0 <=? speed)%float = true -> (speed <=? 1.0)%float = true ->
  raw_powers keys = Ok (Py.Float 0.0%float, Py.Float 1.0%float) /\
  exists c : command,
    get_keyboard_inputs_from_pygame keys speed = Ok c /\
    Z.abs (front_left c) <= MAX_MOTOR_POWER /\
    Z.abs (back_left c) <= MAX_MOTOR_POWER /\
    Z.abs (front_right c) <= MAX_MOTOR_POWER /\
    Z.abs (back_right c) <= MAX_MOTOR_POWER.
Proof.
  intros Hw Hs Ha Hd H0 H1.
  pose proof (unit_interval speed H0 H1) as Hspeed.
  assert (Hraw : raw_powers keys
                 = Ok (Py.Float 0.0%float, Py.Float 1.0%float)).
  { unfold raw_powers. rewrite Hw, Hs, Ha, Hd. vm_compute. reflexivity. }
  split; [exact Hraw|].
  rewrite mixer_split, Hraw. cbn [bind]. unfold scaled_command.
  destruct (scaled_power_bound (Py.Float 0.0%float) speed eq_refl Hspeed)
    as [zl [-> Hzl]].
  destruct (scaled_power_bound (Py.Float 1.0%float) speed eq_refl Hspeed)
    as [zr [-> Hzr]].
  cbn [bind]. eexists. split; [reflexivity|].
  cbn [front_left back_left front_right back_right]. auto.
Qed.

Lemma mixer_diagonal_bounded_witness :
  raw_powers (held [K_w; K_d]) = Ok (Py.Float 0.0%float, Py.Float 1.0%float) /\
  exists c : command,
    get_keyboard_inputs_from_pygame (held [K_w; K_d]) 0.5%float = Ok c /\
    Z.abs (front_left c) <= MAX_MOTOR_POWER /\
    Z.abs (back_left c) <= MAX_MOTOR_POWER /\
    Z.abs (front_right c) <= MAX_MOTOR_POWER /\
    Z.abs (back_right c) <= MAX_MOTOR_POWER.
Proof.
  apply (mixer_diagonal_bounded (held [K_w; K_d]) 0.5%float); reflexivity.
Defined.

(** * Properties of the network loop *)

(** ** What goes on the wire *)

Lemma stop_command_ok : stop_invariant stop_command.
Proof. intros _. repeat split. Qed.

Lemma active_ok (c : command) : active c = true -> stop_invariant c.
Proof. intros H H'. congruence. Qed.

Lemma handle_event_trace (st : state) (ev : pg_event) :
  snd (handle_event st ev) = [] \/ snd (handle_event st ev) = [Shutdown].
Proof.
  destruct ev as [|b pos|k|]; simpl; auto.
  - destruct (b =? 1); [destruct (collidepoint _ _)|]; auto.
  - destruct k; auto.
Qed.

(** The event handler only ever emits shutdown marks. *)
Lemma handle_events_trace (evs : list pg_event) (st : state) :
  Forall (eq Shutdown) (snd (handle_events st evs)).
Proof.
  revert st. induction evs as [|ev evs IH]; intros st; simpl; [constructor|].
  pose proof (handle_event_trace st ev) as H.
  destruct (handle_event st ev) as [st1 tr1].
  specialize (IH st1). destruct (handle_events st1 evs) as [st2 tr2].
  simpl in *. apply Forall_app. split; [|exact IH].
  destruct H as [-> | ->]; repeat constructor.
Qed.

Lemma shutdown_marks_loop_action (tr : trace) :
  Forall (eq Shutdown) tr -> Forall loop_action tr.
Proof.
  intros H. eapply Forall_impl; [|exact H].
  intros a <-. exact I.
Qed.

Ltac action_list :=
  repeat first
    [ apply Forall_nil
    | apply Forall_cons;
      [first [exact I | assumption | exact stop_command_ok]|] ].

(** The message of a tick (lines 123-128) is a well-formed command. *)
Lemma tick_message_ok (st : state) (keys : keys_state)
  (oc : option command) (msg : command) :
  (if is_sending st
   then commands <- get_keyboard_inputs_from_pygame keys (current_speed st) ;;
        Ok (Some commands, commands)
   else Ok (None, stop_command)) = Ok (oc, msg) ->
  stop_invariant msg.
Proof.
  destruct (is_sending st).
  - intros H. apply bind_Ok in H. destruct H as [c [Hc H]].
    injection H as _ <-. apply active_ok.
    exact (mixer_active _ _ _ Hc).
  - intros H. injection H as _ <-. apply stop_command_ok.
Qed.

Lemma tick_actions (sock : socket) (st : state) (inp : tick_input) :
  Forall loop_action (trace_of (tick sock st inp)).
Proof.
  unfold tick, trace_of.
  pose proof (handle_events_trace (events inp) st) as Hev.
  apply shutdown_marks_loop_action in Hev.
  destruct (handle_events st (events inp)) as [st1 tr_ev]. simpl in Hev.
  pose proof (tick_message_ok st1 (pressed inp)) as Hchoice.
  destruct (if is_sending st1 then _ else _) as [[oc msg]|e]; simpl.
  - specialize (Hchoice oc msg eq_refl).
    destruct (sendall sock (send_result inp)); simpl.
    + constructor; [exact I|]. apply Forall_app. split; [exact Hev|].
      action_list.
    + constructor; [exact I|]. apply Forall_app. split; [exact Hev|].
      action_list.
  - constructor; [exact I | exact Hev].
Qed.

Lemma connected_loop_actions (sock : socket) (inps : list tick_input)
  (st : state) :
  Forall loop_action (trace_of (connected_loop sock st inps)).
Proof.
  revert st. induction inps as [|inp inps IH]; intros st; simpl.
  - destruct (running st); constructor.
  - destruct (running st); [|constructor].
    pose proof (tick_actions sock st inp) as Ht.
    destruct (tick sock st inp) as [[st1 tr1] [u|e]]; unfold trace_of in *;
      simpl in *; [|exact Ht].
    specialize (IH st1).
    destruct (connected_loop sock st1 inps) as [[st2 tr2] o]; simpl in *.
    apply Forall_app. auto.
Qed.

Lemma try_block_actions (st : state) (inp : session_input) :
  Forall loop_action (snd (fst (try_block st inp))).
Proof.
  unfold try_block.
  destruct (socket_result inp); [|constructor].
  destruct (connect_result inp); [|simpl; action_list].
  pose proof (connected_loop_actions {| connected := true |} (ticks inp) st)
    as Hl.
  destruct (connected_loop _ st (ticks inp)) as [[st1 tr1] o].
  unfold trace_of in Hl. simpl in *. constructor; [exact I | exact Hl].
Qed.

Lemma except_clauses_actions (st : state) (o : outcome) :
  Forall loop_action (snd (except_clauses st o)).
Proof.
  destruct o as [|e|]; simpl; try constructor.
  destruct (is_network_error e); simpl; action_list.
Qed.

Lemma loop_action_wire_ok (tr : trace) :
  Forall loop_action tr -> Forall wire_ok tr.
Proof.
  intros H. eapply Forall_impl; [|exact H].
  intros [ | | | | | | | | ]; simpl; auto.
Qed.

Lemma final_stop_wire_ok (sock : option socket) (r : res unit) :
  Forall wire_ok (final_stop sock r).
Proof.
  destruct sock; simpl; action_list.
Qed.

Lemma session_wire_ok (st : state) (inp : session_input) :
  Forall wire_ok (trace_of (session st inp)).
Proof.
  unfold session, trace_of.
  pose proof (loop_action_wire_ok _ (try_block_actions st inp)) as Htry.
  destruct (try_block st inp) as [[[sock st1] tr1] o]. simpl in Htry.
  assert (Hrest : Forall wire_ok
     (tr1 ++ snd (except_clauses st1 o) ++
      final_stop sock (final_send_result inp) ++
      retry_delay (fst (except_clauses st1 o)))).
  { apply Forall_app. split; [exact Htry|].
    apply Forall_app. split.
    - apply loop_action_wire_ok, except_clauses_actions.
    - apply Forall_app. split; [apply final_stop_wire_ok|].
      unfold retry_delay. destruct (running _); action_list. }
  destruct o as [|e|]; [| |exact Htry];
    destruct (except_clauses st1 _) as [st2 tr2]; exact Hrest.
Qed.

Lemma retry_loop_wire_ok (script : list session_input) (st : state) :
  Forall wire_ok (trace_of (retry_loop st script)).
Proof.
  revert st. induction script as [|inp script IH]; intros st; simpl.
  - destruct (running st); constructor.
  - destruct (running st); [|constructor].
    pose proof (session_wire_ok st inp) as Hs.
    destruct (session st inp) as [[st1 tr1] [|]]; unfold trace_of in *;
      simpl in *; [|exact Hs].
    specialize (IH st1).
    destruct (retry_loop st1 script) as [[st2 tr2] fin]; simpl in *.
    apply Forall_app. auto.
Qed.

(** C1: in every run, from any state of the globals and whatever the
    outside world does, each command handed to the socket either is
    active or has all four powers at zero. *)
Theorem wire_commands_stop_invariant (st : state)
  (script : list session_input) :
  Forall wire_ok (trace_of (run_from st script)) /\
  Forall wire_ok (trace_of (run_network_client script)).
Proof.
  assert (H : forall st0, Forall wire_ok (trace_of (run_from st0 script))).
  { intros st0. unfold run_from.
    pose proof (retry_loop_wire_ok script st0) as Hr.
    destruct (retry_loop st0 script) as [[st1 tr] fin].
    unfold trace_of in *. simpl in *.
    destruct fin; [|exact Hr].
    apply Forall_app. split; [exact Hr | action_list]. }
  split; [apply H | apply H].
Qed.

(** ** Teardown *)

Lemma loop_action_not_close (tr : trace) :
  Forall loop_action tr -> ~ In Close tr.
Proof.
  intros H Hin. rewrite Forall_forall in H. exact (H Close Hin).
Qed.

Lemma try_block_socket (st : state) (inp : session_input) :
  socket_result inp = Ok tt ->
  exists sock : socket, fst (fst (fst (try_block st inp))) = Some sock.
Proof.
  intros Hs. unfold try_block. rewrite Hs.
  destruct (connect_result inp); [|eexists; reflexivity].
  destruct (connected_loop _ st (ticks inp)) as [[st1 tr1] o].
  eexists; reflexivity.
Qed.

Lemma sent_app (a b : trace) : sent (a ++ b) = sent a ++ sent b.
Proof.
  induction a as [|x a IH]; [reflexivity|].
  destruct x; cbn [app sent]; rewrite IH; reflexivity.
Qed.

(** C2: once the socket exists, however the [try] block is left (the
    loop ended or an exception was raised, also by [connect]), what
    follows the [try] block and the [except] clauses is exactly one
    send of the stop command, then the close of the socket whatever
    came of that send, then at most the retry delay; nothing is closed
    before, and the pass hands the socket the commands of the [try]
    block and this one stop command, no other. *)
Theorem teardown_sends_stop_once (st : state) (inp : session_input) :
  socket_result inp = Ok tt ->
  snd (try_block st inp) <> Pending ->
  let tried := try_block st inp in
  let handled := except_clauses (snd (fst (fst tried))) (snd tried) in
  let body := trace_of tried ++ snd handled in
  session st inp =
    (fst handled,
     body ++ [Send stop_command (final_send_result inp); Close]
          ++ retry_delay (fst handled),
     true) /\
  ~ In Close body /\
  sent (trace_of (session st inp)) = sent body ++ [stop_command] /\
  (retry_delay (fst handled) = [] \/ retry_delay (fst handled) = [Sleep 5]).
Proof.
  intros Hs Ho. cbv zeta.
  destruct (try_block_socket st inp Hs) as [sock Hsock].
  pose proof (try_block_actions st inp) as Htry.
  unfold session, trace_of.
  destruct (try_block st inp) as [[[osock st1] tr1] o].
  cbn [fst snd] in *. subst osock.
  pose proof (except_clauses_actions st1 o) as Hex.
  assert (Hses : (let '(st2, tr2) := except_clauses st1 o in
                  (st2,
                   tr1 ++ tr2 ++
                   final_stop (Some sock) (final_send_result inp) ++
                   retry_delay st2, true)) =
                 (fst (except_clauses st1 o),
                  (tr1 ++ snd (except_clauses st1 o)) ++
                  [Send stop_command (final_send_result inp); Close] ++
                  retry_delay (fst (except_clauses st1 o)), true)).
  { destruct (except_clauses st1 o) as [st2 tr2]. cbn [fst snd].
    unfold final_stop, sendall. rewrite <- app_assoc. reflexivity. }
  assert (Hdelay : retry_delay (fst (except_clauses st1 o)) = [] \/
                   retry_delay (fst (except_clauses st1 o)) = [Sleep 5])
    by (unfold retry_delay; destruct (running _); auto).
  match goal with
  | |- ?pass = ?shape /\ _ =>
      assert (Hpass : pass = shape)
        by (destruct o as [|e|]; [exact Hses | exact Hses | congruence]);
      rewrite Hpass
  end.
  split; [reflexivity|]. split; [|split; [|exact Hdelay]].
  - apply loop_action_not_close, Forall_app. auto.
  - cbn [fst snd]. rewrite sent_app. f_equal.
    destruct Hdelay as [-> | ->]; reflexivity.
Qed.

Lemma teardown_sends_stop_once_witness :
  let tried := try_block initial_state broken_session in
  let handled := except_clauses (snd (fst (fst tried))) (snd tried) in
  let body := trace_of tried ++ snd handled in
  session initial_state broken_session =
    (fst handled,
     body ++ [Send stop_command (final_send_result broken_session); Close]
          ++ retry_delay (fst handled),
     true) /\
  ~ In Close body /\
  sent (trace_of (session initial_state broken_session)) =
    sent body ++ [stop_command] /\
  (retry_delay (fst handled) = [] \/ retry_delay (fst handled) = [Sleep 5]).
Proof.
  apply (teardown_sends_stop_once initial_state broken_session).
  - reflexivity.
  - vm_compute. discriminate.
Defined.

(** ** Errors *)





(** ** Reconnecting *)

Lemma session_connect_failed (st : state) (inp : session_input) (e : exn) :
  running st = true ->
  socket_result inp = Ok tt -> connect_result inp = Raise e ->
  is_network_error e = true ->
  session st inp =
    (st,
     [Connect (Raise e); Send stop_command (final_send_result inp);
      Close; Sleep 5],
     true).
Proof.
  intros Hrun Hs Hc He. unfold session, try_block. rewrite Hs, Hc.
  simpl. rewrite He. unfold retry_delay. simpl. rewrite Hrun. reflexivity.
Qed.

Lemma session_connect_ok (st : state) (inp : session_input) :
  socket_result inp = Ok tt -> connect_result inp = Ok tt ->
  exists st' tr b, session st inp = (st', Connect (Ok tt) :: tr, b).
Proof.
  intros Hs Hc. unfold session, try_block. rewrite Hs, Hc.
  destruct (connected_loop _ st (ticks inp)) as [[st2 tr2] o].
  destruct o as [|e|]; try destruct (except_clauses st2 _); simpl; eauto.
Qed.

(** C3 as stated fails: after each failed attempt the [finally] clause
    hands the stop command to the socket whose connect raised (line
    176), and after a connect timeout that send can go through: two
    commands have gone out before the third attempt succeeds. *)
Lemma stop_sent_between_attempts :
  exists rest : trace,
    trace_of (run_network_client
                [timed_out_session; timed_out_session; quit_session]) =
      [Connect (Raise SocketTimeout); Send stop_command (Ok tt);
       Close; Sleep 5;
       Connect (Raise SocketTimeout); Send stop_command (Ok tt);
       Close; Sleep 5;
       Connect (Ok tt)] ++ rest /\
    delivered
      [Connect (Raise SocketTimeout); Send stop_command (Ok tt);
       Close; Sleep 5;
       Connect (Raise SocketTimeout); Send stop_command (Ok tt);
       Close; Sleep 5] = [stop_command; stop_command] /\
    delivered
      [Connect (Raise SocketTimeout); Send stop_command (Ok tt);
       Close; Sleep 5;
       Connect (Raise SocketTimeout); Send stop_command (Ok tt);
       Close; Sleep 5] <> [].
Proof.
  eexists. split; [vm_compute; reflexivity|].
  split; [reflexivity | discriminate].
Qed.

(** C3, amended: when the first two connect attempts fail with a
    transport error and the third succeeds, the run starts with exactly
    three connect attempts, which start at least 5 seconds apart; each
    failed one is followed by one send of the stop command on its
    socket, the close and a 5 second sleep. So the only commands handed
    to a socket before the third attempt succeeds are these two stop
    commands, never a driving command; they go out when the socket
    lets them, and nothing goes out when both sends raise. *)
Theorem reconnect_on_third_attempt (st : state)
  (i1 i2 i3 : session_input) (script : list session_input) (e1 e2 : exn) :
  running st = true ->
  socket_result i1 = Ok tt -> connect_result i1 = Raise e1 ->
  is_network_error e1 = true ->
  socket_result i2 = Ok tt -> connect_result i2 = Raise e2 ->
  is_network_error e2 = true ->
  socket_result i3 = Ok tt -> connect_result i3 = Ok tt ->
  let attempts :=
    [Connect (Raise e1); Send stop_command (final_send_result i1);
     Close; Sleep 5;
     Connect (Raise e2); Send stop_command (final_send_result i2);
     Close; Sleep 5;
     Connect (Ok tt)] in
  (exists rest : trace,
     trace_of (run_from st (i1 :: i2 :: i3 :: script)) = attempts ++ rest) /\
  connect_times 0 attempts = [0; 5; 10] /\
  sent attempts = [stop_command; stop_command] /\
  (forall x1 x2 : exn,
     final_send_result i1 = Raise x1 -> final_send_result i2 = Raise x2 ->
     delivered attempts = []).
Proof.
  intros Hrun Hs1 Hc1 He1 Hs2 Hc2 He2 Hs3 Hc3 attempts.
  split; [|split; [reflexivity|split; [reflexivity|]]].
  - unfold run_from, trace_of. simpl retry_loop.
    rewrite Hrun, (session_connect_failed st i1 e1) by assumption.
    rewrite Hrun, (session_connect_failed st i2 e2) by assumption.
    rewrite Hrun.
    destruct (session_connect_ok st i3 Hs3 Hc3) as (st3 & tr3 & b & ->).
    destruct b.
    + destruct (retry_loop st3 script) as [[st4 tr4] fin].
      exists (tr3 ++ tr4 ++ if fin then [PygameQuit] else []).
      destruct fin; simpl; repeat rewrite <- app_assoc; simpl;
        rewrite ?app_nil_r; reflexivity.
    + exists tr3. reflexivity.
  - intros x1 x2 H1 H2. unfold attempts. rewrite H1, H2. reflexivity.
Qed.

Lemma reconnect_on_third_attempt_witness :
  let attempts :=
    [Connect (Raise ConnectionRefusedError);
     Send stop_command (final_send_result refused_session);
     Close; Sleep 5;
     Connect (Raise ConnectionRefusedError);
     Send stop_command (final_send_result refused_session);
     Close; Sleep 5;
     Connect (Ok tt)] in
  (exists rest : trace,
     trace_of (run_from initial_state
       [refused_session; refused_session; broken_session]) =
     attempts ++ rest) /\
  connect_times 0 attempts = [0; 5; 10] /\
  sent attempts = [stop_command; stop_command] /\
  (forall x1 x2 : exn,
     final_send_result refused_session = Raise x1 ->
     final_send_result refused_session = Raise x2 ->
     delivered attempts = []).
Proof.
  apply (reconnect_on_third_attempt initial_state refused_session
           refused_session broken_session []
           ConnectionRefusedError ConnectionRefusedError);
    reflexivity.
Defined.

(** ** Shutdown *)



Lemma has_shutdown_app (a b : trace) :
  has_shutdown (a ++ b) = has_shutdown a || has_shutdown b.
Proof. apply existsb_app. Qed.

Lemma final_stop_counts (sock : option socket) (r : res unit) :
  has_shutdown (final_stop sock r) = false /\
  count starts_work (final_stop sock r) = 0%nat /\
  (count is_send (final_stop sock r) <= 1)%nat /\
  count is_render (final_stop sock r) = 0%nat /\
  count is_wait (final_stop sock r) = 0%nat.
Proof. destruct sock; unfold count; simpl; repeat split; lia. Qed.

(** Each quit event and each escape key, and nothing else in the queue,
    leaves the mark and clears the flag. *)
Lemma handle_event_signal (st : state) (ev : pg_event) :
  snd (handle_event st ev) = signal_mark ev /\
  running (fst (handle_event st ev)) = running st && negb (quit_event ev).
Proof.
  destruct ev as [|b pos|k|]; cbn [handle_event].
  - split; [reflexivity | cbn; now rewrite andb_false_r].
  - destruct (b =? 1); [destruct (collidepoint _ _)|];
      split; first [reflexivity | cbn; now rewrite andb_true_r].
  - destruct k; split;
      first [reflexivity | cbn; now rewrite ?andb_true_r, ?andb_false_r].
  - split; [reflexivity | cbn; now rewrite andb_true_r].
Qed.

Lemma handle_events_signal (evs : list pg_event) (st : state) :
  snd (handle_events st evs) = flat_map signal_mark evs /\
  running (fst (handle_events st evs)) =
    running st && negb (existsb quit_event evs).
Proof.
  revert st. induction evs as [|ev evs IH]; intros st.
  - split; [reflexivity | cbn; now rewrite andb_true_r].
  - cbn [handle_events flat_map existsb].
    destruct (handle_event_signal st ev) as [Hm Hr].
    destruct (handle_event st ev) as [st1 tr1]. cbn [fst snd] in Hm, Hr.
    destruct (IH st1) as [Hm' Hr'].
    destruct (handle_events st1 evs) as [st2 tr2]. cbn [fst snd] in *.
    split; [now rewrite Hm, Hm'|].
    rewrite Hr', Hr, negb_orb, andb_assoc. reflexivity.
Qed.

Lemma int_raises (v : Py.num) (e : exn) :
  Py.int v = Raise e -> e = OtherException.
Proof.
  destruct v as [z|f]; simpl; [discriminate|].
  destruct (Py.trunc_SF _); [discriminate|]. intros H. now injection H.
Qed.







(** * The value of the mixer *)

Lemma digits2_pos_unique (v : positive) (d : Z) :
  2 ^ (d - 1) <= Zpos v < 2 ^ d -> Zpos (digits2_pos v) = d.
Proof.
  intros [Hlo Hhi].
  pose proof (digits2_pos_bounds v) as [Hlo' Hhi'].
  assert (H1 : 2 ^ (d - 1) < 2 ^ Zpos (digits2_pos v)) by lia.
  assert (Hd : 0 < d).
  { destruct (Z_lt_le_dec 0 d) as [|Hneg]; [assumption|].
    destruct (Z.eq_dec d 0) as [->|Hne]; [change (2 ^ 0) with 1 in Hhi; lia|].
    rewrite Z.pow_neg_r in Hhi by lia. lia. }
  assert (H2 : 2 ^ (Zpos (digits2_pos v) - 1) < 2 ^ d) by lia.
  apply Z.pow_lt_mono_r_iff in H1; [|lia|lia].
  apply Z.pow_lt_mono_r_iff in H2; [|lia|lia].
  lia.
Qed.

Lemma digits2_pos_one_m (m : positive) :
  Zpos (digits2_pos (one_m * m)) = Zpos (digits2_pos m) + 52.
Proof.
  apply digits2_pos_unique.
  pose proof (digits2_pos_bounds m) as [Hlo Hhi].
  rewrite Pos2Z.inj_mul. unfold one_m.
  replace (Zpos (digits2_pos m) + 52 - 1)
    with (52 + (Zpos (digits2_pos m) - 1)) by lia.
  rewrite (Z.add_comm _ 52), !pow2_add by lia.
  change (2 ^ 52) with 4503599627370496. lia.
Qed.

(** Multiplying a binary64 number by 1.0 gives it back. *)
Lemma SF64mul_one (x : spec_float) :
  valid_binary x = true ->
  magnitude_le x one_m one_e = true ->
  SF64mul (S754_finite false one_m one_e) x = x.
Proof.
  intros Hv Hx. destruct x as [sg|sg| |sg m e]; try discriminate;
    [reflexivity|].
  cbn [valid_binary] in Hv. unfold bounded, canonical_mantissa in Hv.
  apply andb_true_iff in Hv. destruct Hv as [Hc Hb].
  apply Z.eqb_eq in Hc. apply Z.leb_le in Hb.
  unfold SF64mul, SFmul, binary_round_aux, shr_fexp.
  cbn [xorb shr_record_of_loc Zdigits2].
  rewrite digits2_pos_one_m.
  replace (Zpos (digits2_pos m) + 52 + (one_e + e))
    with (Zpos (digits2_pos m) + e) by (unfold one_e; lia).
  rewrite Hc.
  destruct (shr_shifted (Zpos (one_m * m)) (one_e + e) (e - (one_e + e))
              ltac:(lia)) as [mrs [-> [Hm Hex]]].
  replace (Z.max (e - (one_e + e)) 0) with 52 in * by (unfold one_e; lia).
  assert (Hdiv : Zpos (one_m * m) / 2 ^ 52 = Zpos m).
  { rewrite Pos2Z.inj_mul, Z.mul_comm. unfold one_m.
    change (2 ^ 52) with 4503599627370496. apply Z.div_mul. lia. }
  assert (Hmod : Zpos (one_m * m) mod 2 ^ 52 = 0).
  { rewrite Pos2Z.inj_mul, Z.mul_comm. unfold one_m.
    change (2 ^ 52) with 4503599627370496. apply Z.mod_mul. lia. }
  destruct (Hex Hmod) as [Hr Hs]. rewrite Hdiv in Hm.
  destruct mrs as [m' r' s']. cbn [shr_m shr_r shr_s] in *. subst m' r' s'.
  cbn [loc_of_shr_record round_nearest_even shr_m Zdigits2].
  replace (one_e + e + 52) with e by (unfold one_e; lia).
  rewrite Hc, Z.sub_diag. cbn [shr shr_m].
  rewrite (proj2 (Z.leb_le e (emax - prec))) by exact Hb.
  reflexivity.
Qed.

(** The sign of a product goes through the rounding. *)
Lemma binary_round_aux_opp (sx : bool) (mx ex : Z) (lx : location) :
  binary_round_aux prec emax (negb sx) mx ex lx =
  SFopp (binary_round_aux prec emax sx mx ex lx).
Proof.
  unfold binary_round_aux.
  destruct (shr_fexp prec emax mx ex lx) as [mrs1 e1].
  destruct (shr_fexp prec emax _ e1 loc_Exact) as [mrs2 e2].
  destruct (shr_m mrs2); try reflexivity.
  destruct (e2 <=? emax - prec); reflexivity.
Qed.

Lemma SF64mul_opp (x y : spec_float) :
  magnitude_le x one_m one_e = true ->
  SF64mul (SFopp x) y = SFopp (SF64mul x y).
Proof.
  intros Hx.
  destruct x as [sx|sx| |sx mx ex]; try discriminate;
    destruct y as [sy|sy| |sy my ey]; try reflexivity;
    unfold SF64mul, SFmul, SFopp; fold (SFopp);
    try (destruct sx, sy; reflexivity).
  replace (xorb (negb sx) sy) with (negb (xorb sx sy))
    by (destruct sx, sy; reflexivity).
  apply binary_round_aux_opp.
Qed.

Lemma trunc_SF_opp (x : spec_float) (z : Z) :
  Py.trunc_SF x = Some z -> Py.trunc_SF (SFopp x) = Some (- z).
Proof.
  destruct x as [sg|sg| |sg m e]; try discriminate; simpl.
  - intros H. injection H as <-. reflexivity.
  - intros H. injection H as <-. destruct sg; simpl; f_equal; lia.
Qed.

Lemma binary_round_aux_sign (sx : bool) (mx ex : Z) (lx : location) :
  match binary_round_aux prec emax sx mx ex lx with
  | S754_finite s _ _ => s = sx
  | _ => True
  end.
Proof.
  unfold binary_round_aux.
  destruct (shr_fexp prec emax mx ex lx) as [mrs1 e1].
  destruct (shr_fexp prec emax _ e1 loc_Exact) as [mrs2 e2].
  destruct (shr_m mrs2); try exact I.
  destruct (e2 <=? emax - prec); [reflexivity | exact I].
Qed.

Lemma trunc_SF_nonneg (m : positive) (e z : Z) :
  Py.trunc_SF (S754_finite false m e) = Some z -> 0 <= z.
Proof.
  simpl. intros H. injection H as <-.
  destruct e; [apply Z.shiftl_nonneg | apply Z.shiftl_nonneg
              | apply Z.shiftr_nonneg]; lia.
Qed.

(** A float that is at least 0.0 is a zero or carries no sign. *)
Lemma nonneg_sign (s : float) :
  (0.0 <=? s)%float = true ->
  match Prim2SF s with
  | S754_finite sg _ _ => sg = false
  | _ => True
  end.
Proof.
  rewrite leb_spec. change (Prim2SF 0.0) with (S754_zero false).
  destruct (Prim2SF s) as [sg|sg| |sg m e]; try (intros; exact I).
  destruct sg; [discriminate | reflexivity].
Qed.

(** [int(speed * 255.0)] for a speed between 0.0 and 1.0. *)
Lemma full_power (speed : float) :
  (0.0 <=? speed)%float = true -> (speed <=? 1.0)%float = true ->
  exists p : Z,
    Py.int (Py.Float (speed * 255.0)) = Ok p /\ 0 <= p <= MAX_MOTOR_POWER.
Proof.
  intros H0 H1. cbn [Py.int]. rewrite mul_spec.
  pose proof (unit_interval speed H0 H1) as Hu.
  pose proof (nonneg_sign speed H0) as Hsg.
  destruct (trunc_SF_le (SF64mul (Prim2SF speed) (Prim2SF 255.0)))
    as [p [Hp Hb]].
  { apply SF64mul_le; [exact canonical_max_power | exact Hu|].
    vm_compute. reflexivity. }
  rewrite Hp. exists p. split; [reflexivity|].
  unfold MAX_MOTOR_POWER. split; [|lia].
  change (Prim2SF 255.0) with (S754_finite false max_power_m max_power_e)
    in Hp.
  destruct (Prim2SF speed) as [sg|sg| |sg m e]; try discriminate.
  - simpl in Hp. injection Hp as <-. lia.
  - subst sg. unfold SF64mul, SFmul in Hp. cbn [xorb] in Hp.
    pose proof (binary_round_aux_sign false
                  (Zpos (m * max_power_m)) (e + max_power_e) loc_Exact)
      as Hs.
    destruct (binary_round_aux _ _ _ _ _ _) as [sg'|sg'| |sg' m' e'];
      try discriminate.
    + simpl in Hp. injection Hp as <-. lia.
    + subst sg'. exact (trunc_SF_nonneg _ _ _ Hp).
Qed.

(** A raw power of class [a] scaled by the speed gives [a] times the
    full power. *)
Lemma scaled_power_value (raw : Py.num) (speed : float) (a p : Z) :
  sign_class raw = Some a ->
  (0.0 <=? speed)%float = true -> (speed <=? 1.0)%float = true ->
  Py.int (Py.Float (speed * 255.0)) = Ok p ->
  Py.int (Py.mul (Py.mul raw (Py.Float speed)) (Py.Int MAX_MOTOR_POWER))
    = Ok (a * p).
Proof.
  intros Ha H0 H1 Hp.
  pose proof (unit_interval speed H0 H1) as Hu.
  pose proof (Prim2SF_valid speed) as Hv.
  assert (Hmax : Py.float_of_int MAX_MOTOR_POWER = 255.0%float)
    by (vm_compute; reflexivity).
  assert (E : Py.mul (Py.mul raw (Py.Float speed)) (Py.Int MAX_MOTOR_POWER)
              = Py.Float (Py.to_float raw * speed * 255.0)%float).
  { destruct raw; unfold Py.mul, Py.arith, Py.to_float;
      rewrite Hmax; reflexivity. }
  rewrite E. cbn [Py.int] in *. rewrite !mul_spec in *.
  set (y := Prim2SF 255.0) in *.
  assert (Hp' : Py.trunc_SF (SF64mul (Prim2SF speed) y) = Some p).
  { destruct (Py.trunc_SF _); [injection Hp as ->; reflexivity
                              | discriminate]. }
  clear Hp. unfold sign_class in Ha.
  destruct (Prim2SF (Py.to_float raw)) as [sg|sg| |sg m e];
    try discriminate.
  - injection Ha as <-.
    assert (Hz : exists sg', SF64mul (SF64mul (S754_zero sg) (Prim2SF speed)) y
                             = S754_zero sg').
    { destruct (Prim2SF speed) as [s1|s1| |s1 m1 e1]; try discriminate;
        eexists; reflexivity. }
    destruct Hz as [sg' ->]. reflexivity.
  - destruct ((m =? one_m)%positive && (e =? one_e)) eqn:Hme;
      [|discriminate].
    apply andb_true_iff in Hme. destruct Hme as [Hm He].
    apply Pos.eqb_eq in Hm. apply Z.eqb_eq in He. subst m e.
    injection Ha as <-. destruct sg.
    + change (S754_finite true one_m one_e)
        with (SFopp (S754_finite false one_m one_e)).
      rewrite SF64mul_opp by reflexivity.
      rewrite SF64mul_one by assumption.
      rewrite SF64mul_opp by assumption.
      rewrite (trunc_SF_opp _ _ Hp'). f_equal; lia.
    + rewrite SF64mul_one by assumption.
      rewrite Hp'. f_equal; lia.
Qed.

Lemma raw_powers_signs (keys : keys_state) :
  exists l r : Py.num,
    raw_powers keys = Ok (l, r) /\
    sign_class l = Some (Z.sgn (y_intent keys - x_intent keys)) /\
    sign_class r = Some (Z.sgn (y_intent keys + x_intent keys)).
Proof.
  unfold raw_powers, y_intent, x_intent.
  destruct (keys K_w), (keys K_s), (keys K_a), (keys K_d).
  all: match goal with
       | |- exists l r, ?X = _ /\ _ =>
           let v := eval vm_compute in X in
           match v with
           | Ok (?a, ?b) =>
               exists a, b; split; [vm_compute; reflexivity|];
               split; vm_compute; reflexivity
           end
       end.
Qed.

Lemma mixer_by_signs (keys : keys_state) (speed : float)
  (l r : Py.num) (a b p : Z) :
  raw_powers keys = Ok (l, r) ->
  sign_class l = Some a -> sign_class r = Some b ->
  (0.0 <=? speed)%float = true -> (speed <=? 1.0)%float = true ->
  Py.int (Py.Float (speed * 255.0)) = Ok p ->
  get_keyboard_inputs_from_pygame keys speed =
    Ok {| front_left := a * p; back_left := a * p;
          front_right := b * p; back_right := b * p; active := true |}.
Proof.
  intros Hraw Hl Hr H0 H1 Hp.
  rewrite mixer_split, Hraw. cbn [bind]. unfold scaled_command.
  rewrite (scaled_power_value l speed a p Hl H0 H1 Hp).
  rewrite (scaled_power_value r speed b p Hr H0 H1 Hp).
  reflexivity.
Qed.

(** X1: at a speed between 0.0 and 1.0 the mixer is three-valued: with
    [p = int(speed * 255.0)], which lies between 0 and [MAX_MOTOR_POWER],
    both left motors get [sgn(y - x) * p] and both right motors
    [sgn(y + x) * p], where [(x, y)] is the intent read from the keys. *)
Theorem mixer_value (keys : keys_state) (speed : float) :
  (0.0 <=? speed)%float = true -> (speed <=? 1.0)%float = true ->
  exists p : Z,
    Py.int (Py.Float (speed * 255.0)) = Ok p /\
    0 <= p <= MAX_MOTOR_POWER /\
    get_keyboard_inputs_from_pygame keys speed =
      Ok {| front_left := Z.sgn (y_intent keys - x_intent keys) * p;
            back_left := Z.sgn (y_intent keys - x_intent keys) * p;
            front_right := Z.sgn (y_intent keys + x_intent keys) * p;
            back_right := Z.sgn (y_intent keys + x_intent keys) * p;
            active := true |}.
Proof.
  intros H0 H1.
  destruct (full_power speed H0 H1) as [p [Hp Hb]].
  destruct (raw_powers_signs keys) as (l & r & Hraw & Hl & Hr).
  exists p. split; [exact Hp|]. split; [exact Hb|].
  exact (mixer_by_signs keys speed l r _ _ p Hraw Hl Hr H0 H1 Hp).
Qed.

Lemma mixer_value_witness :
  exists p : Z,
    Py.int (Py.Float (0.5 * 255.0)) = Ok p /\
    0 <= p <= MAX_MOTOR_POWER /\
    get_keyboard_inputs_from_pygame (held [K_s; K_d]) 0.5%float =
      Ok {| front_left :=
              Z.sgn (y_intent (held [K_s; K_d]) - x_intent (held [K_s; K_d]))
              * p;
            back_left :=
              Z.sgn (y_intent (held [K_s; K_d]) - x_intent (held [K_s; K_d]))
              * p;
            front_right :=
              Z.sgn (y_intent (held [K_s; K_d]) + x_intent (held [K_s; K_d]))
              * p;
            back_right :=
              Z.sgn (y_intent (held [K_s; K_d]) + x_intent (held [K_s; K_d]))
              * p;
            active := true |}.
Proof.
  apply (mixer_value (held [K_s; K_d]) 0.5%float); reflexivity.
Defined.

(** X2: with no key held, or with opposite keys held together (forward
    with backward, left with right), the mixer returns a command whose
    four powers are 0 and which is still marked active: it is not the
    stop command. *)
Theorem mixer_neutral (keys : keys_state) (speed : float) :
  keys K_w = keys K_s -> keys K_a = keys K_d ->
  (0.0 <=? speed)%float = true -> (speed <=? 1.0)%float = true ->
  get_keyboard_inputs_from_pygame keys speed =
    Ok {| front_left := 0; back_left := 0;
          front_right := 0; back_right := 0; active := true |} /\
  Ok (A := command) stop_command <>
    get_keyboard_inputs_from_pygame keys speed.
Proof.
  intros Hy Hx H0 H1.
  destruct (full_power speed H0 H1) as [p [Hp _]].
  destruct (raw_powers_signs keys) as (l & r & Hraw & Hl & Hr).
  assert (Hyx : y_intent keys = 0 /\ x_intent keys = 0).
  { unfold y_intent, x_intent. rewrite Hy, Hx.
    destruct (keys K_s), (keys K_d); split; reflexivity. }
  destruct Hyx as [Hy0 Hx0]. rewrite Hy0, Hx0 in Hl, Hr.
  rewrite (mixer_by_signs keys speed l r _ _ p Hraw Hl Hr H0 H1 Hp).
  split; [reflexivity | discriminate].
Qed.

Lemma mixer_neutral_witness :
  get_keyboard_inputs_from_pygame (held [K_w; K_s]) 0.5%float =
    Ok {| front_left := 0; back_left := 0;
          front_right := 0; back_right := 0; active := true |} /\
  Ok (A := command) stop_command <>
    get_keyboard_inputs_from_pygame (held [K_w; K_s]) 0.5%float.
Proof.
  apply (mixer_neutral (held [K_w; K_s]) 0.5%float); reflexivity.
Defined.

Lemma intents_reversed (keys : keys_state) :
  y_intent (reverse_keys keys) = - y_intent keys /\
  x_intent (reverse_keys keys) = - x_intent keys.
Proof.
  unfold y_intent, x_intent, reverse_keys.
  destruct (keys K_w), (keys K_s), (keys K_a), (keys K_d);
    split; reflexivity.
Qed.

(** X3: at a speed between 0.0 and 1.0, exchanging forward with backward
    and left with right negates every power. *)
Theorem mixer_reverse (keys : keys_state) (speed : float) :
  (0.0 <=? speed)%float = true -> (speed <=? 1.0)%float = true ->
  exists c c' : command,
    get_keyboard_inputs_from_pygame keys speed = Ok c /\
    get_keyboard_inputs_from_pygame (reverse_keys keys) speed = Ok c' /\
    front_left c' = - front_left c /\ back_left c' = - back_left c /\
    front_right c' = - front_right c /\ back_right c' = - back_right c.
Proof.
  intros H0 H1.
  destruct (full_power speed H0 H1) as [p [Hp _]].
  destruct (raw_powers_signs keys) as (l & r & Hraw & Hl & Hr).
  destruct (raw_powers_signs (reverse_keys keys))
    as (l' & r' & Hraw' & Hl' & Hr').
  destruct (intents_reversed keys) as [Hy Hx]. rewrite Hy, Hx in Hl', Hr'.
  rewrite (mixer_by_signs keys speed l r _ _ p Hraw Hl Hr H0 H1 Hp).
  rewrite (mixer_by_signs _ speed l' r' _ _ p Hraw' Hl' Hr' H0 H1 Hp).
  eexists. eexists. split; [reflexivity|]. split; [reflexivity|].
  cbn [front_left back_left front_right back_right].
  set (y := y_intent keys). set (x := x_intent keys).
  replace (- y - - x) with (- (y - x)) by lia.
  replace (- y + - x) with (- (y + x)) by lia.
  rewrite !Z.sgn_opp. repeat split; lia.
Qed.

Lemma mixer_reverse_witness :
  exists c c' : command,
    get_keyboard_inputs_from_pygame (held [K_w; K_a]) 0.5%float = Ok c /\
    get_keyboard_inputs_from_pygame (reverse_keys (held [K_w; K_a]))
      0.5%float = Ok c' /\
    front_left c' = - front_left c /\ back_left c' = - back_left c /\
    front_right c' = - front_right c /\ back_right c' = - back_right c.
Proof.
  apply (mixer_reverse (held [K_w; K_a]) 0.5%float); reflexivity.
Defined.

Lemma raw_powers_mirror (keys : keys_state) :
  raw_powers (mirror_keys keys) =
  ('(l, r) <- raw_powers keys ;; Ok (r, l)).
Proof.
  unfold raw_powers, mirror_keys.
  destruct (keys K_w), (keys K_s), (keys K_a), (keys K_d);
    vm_compute; reflexivity.
Qed.

(** X4: exchanging the left and right keys exchanges the powers of the
    two sides, at every speed (and the mixer raises for one keyboard
    exactly when it raises for the other). *)
Theorem mixer_mirror (keys : keys_state) (speed : float) :
  get_keyboard_inputs_from_pygame (mirror_keys keys) speed =
  (c <- get_keyboard_inputs_from_pygame keys speed ;; Ok (swap_sides c)).
Proof.
  rewrite !mixer_split, raw_powers_mirror.
  destruct (raw_powers keys) as [[l r]|e]; [|reflexivity].
  cbn [bind]. unfold scaled_command.
  set (pl := Py.mul (Py.mul l (Py.Float speed)) (Py.Int MAX_MOTOR_POWER)).
  set (pr := Py.mul (Py.mul r (Py.Float speed)) (Py.Int MAX_MOTOR_POWER)).
  pose proof (int_raises pl) as Hl. pose proof (int_raises pr) as Hr.
  destruct (Py.int pl) as [zl|el], (Py.int pr) as [zr|er]; cbn [bind].
  - reflexivity.
  - reflexivity.
  - reflexivity.
  - rewrite (Hl el eq_refl), (Hr er eq_refl). reflexivity.
Qed.

(** * More on the throttle *)

(** X5: whatever events were handled since the start, an up-key press
    raises the speed unless it already is 1.0, and a down-key press
    lowers it unless it already is 0.0: rounding never makes a press
    a no-op below the bounds. *)
Theorem throttle_steps_move (evs : list pg_event) :
  ((speed_after evs <? 1.0)%float = true ->
   (speed_after evs <? speed_after (evs ++ [KEYDOWN K_UP]))%float = true) /\
  ((0.0 <? speed_after evs)%float = true ->
   (speed_after (evs ++ [KEYDOWN K_DOWN]) <? speed_after evs)%float = true).
Proof.
  assert (Hs : In (speed_after evs) throttle_values)
    by (apply handle_events_speed, initial_speed_in).
  rewrite !speed_after_app.
  rewrite (handle_events_ups 1), (handle_events_downs 1).
  fold (speed_after evs). cbn [Nat.iter nat_rect].
  generalize dependent (speed_after evs). intros s Hs.
  each_throttle_value Hs.
  all: split; vm_compute; intros H; first [reflexivity | discriminate H].
Qed.

(** * The running flag *)

Lemma handle_events_flag (evs : list pg_event) (st : state) :
  running (fst (handle_events st evs)) =
  running st && negb (has_shutdown (snd (handle_events st evs))).
Proof.
  revert st. induction evs as [|ev evs IH]; intros st; simpl.
  - now rewrite andb_true_r.
  - assert (H1 : running (fst (handle_event st ev)) =
                 running st && negb (has_shutdown (snd (handle_event st ev)))).
    { destruct ev as [|b pos|k|]; simpl; rewrite ?andb_true_r, ?andb_false_r;
        try reflexivity.
      - destruct (b =? 1); [destruct (collidepoint _ _)|]; simpl;
          now rewrite andb_true_r.
      - destruct k; simpl; rewrite ?andb_true_r, ?andb_false_r; reflexivity. }
    destruct (handle_event st ev) as [st1 tr1].
    specialize (IH st1). destruct (handle_events st1 evs) as [st2 tr2].
    simpl in *. rewrite has_shutdown_app, IH, H1, negb_orb.
    now rewrite andb_assoc.
Qed.

Lemma tick_flag (sock : socket) (st : state) (inp : tick_input) :
  running (state_of (tick sock st inp)) =
  running st && negb (has_shutdown (trace_of (tick sock st inp))).
Proof.
  unfold tick, trace_of, state_of.
  pose proof (handle_events_flag (events inp) st) as H.
  destruct (handle_events st (events inp)) as [st1 tr_ev]. simpl in H.
  destruct (if is_sending st1 then _ else _) as [[oc msg]|e];
    [destruct (sendall sock (send_result inp))|]; simpl;
    rewrite ?has_shutdown_app; simpl; rewrite ?orb_false_r; exact H.
Qed.

Lemma connected_loop_flag (sock : socket) (inps : list tick_input)
  (st : state) :
  running (state_of (connected_loop sock st inps)) =
  running st && negb (has_shutdown (trace_of (connected_loop sock st inps))).
Proof.
  unfold trace_of, state_of.
  revert st. induction inps as [|inp inps IH]; intros st; simpl.
  - destruct (running st) eqn:Hr; simpl; rewrite Hr; reflexivity.
  - destruct (running st) eqn:Hr; [|simpl; rewrite Hr; reflexivity].
    pose proof (tick_flag sock st inp) as Ht.
    unfold trace_of, state_of in Ht. rewrite Hr in Ht.
    destruct (tick sock st inp) as [[st1 tr1] [u|e]];
      simpl in *; [|exact Ht].
    specialize (IH st1).
    destruct (connected_loop sock st1 inps) as [[st2 tr2] o]. simpl in *.
    rewrite has_shutdown_app, IH, Ht, negb_orb. reflexivity.
Qed.

Lemma session_flag (st : state) (inp : session_input) :
  running (state_of (session st inp)) =
  running st && negb (has_shutdown (trace_of (session st inp))).
Proof.
  unfold session, trace_of, state_of.
  assert (Htry : running (snd (fst (fst (try_block st inp)))) =
                 running st &&
                 negb (has_shutdown (snd (fst (try_block st inp))))).
  { unfold try_block.
    destruct (socket_result inp); [|simpl; now rewrite andb_true_r].
    destruct (connect_result inp); [|simpl; now rewrite andb_true_r].
    pose proof (connected_loop_flag {| connected := true |} (ticks inp) st)
      as H.
    destruct (connected_loop _ st (ticks inp)) as [[st1 tr1] o]. exact H. }
  destruct (try_block st inp) as [[[sock st1] tr1] o]. simpl in Htry.
  pose proof (final_stop_counts sock (final_send_result inp)) as [Hf _].
  assert (Hdelay : forall s, has_shutdown (retry_delay s) = false)
    by (intros s; unfold retry_delay; destruct (running s); reflexivity).
  destruct o as [|e|]; [| |simpl; exact Htry].
  - simpl. rewrite !has_shutdown_app, Hf, Hdelay. simpl.
    now rewrite orb_false_r.
  - simpl. destruct (is_network_error e); simpl;
      rewrite !has_shutdown_app, ?Hf, ?Hdelay; simpl;
      rewrite ?orb_false_r, ?orb_true_r, ?andb_false_r; auto.
Qed.

Lemma retry_loop_flag (script : list session_input) (st : state) :
  running (state_of (retry_loop st script)) =
  running st && negb (has_shutdown (trace_of (retry_loop st script))).
Proof.
  unfold trace_of, state_of.
  revert st. induction script as [|inp script IH]; intros st; simpl.
  - destruct (running st) eqn:Hr; simpl; rewrite Hr; reflexivity.
  - destruct (running st) eqn:Hr; [|simpl; rewrite Hr; reflexivity].
    pose proof (session_flag st inp) as Hs.
    unfold trace_of, state_of in Hs. rewrite Hr in Hs.
    destruct (session st inp) as [[st1 tr1] [|]];
      simpl in *; [|exact Hs].
    specialize (IH st1).
    destruct (retry_loop st1 script) as [[st2 tr2] fin]. simpl in *.
    rewrite has_shutdown_app, IH, Hs, negb_orb. reflexivity.
Qed.

Lemma retry_loop_returned (script : list session_input) (st : state) :
  snd (retry_loop st script) = true ->
  running (state_of (retry_loop st script)) = false.
Proof.
  unfold state_of.
  revert st. induction script as [|inp script IH]; intros st; simpl.
  - destruct (running st) eqn:Hr; simpl; [discriminate | auto].
  - destruct (running st) eqn:Hr; [|simpl; auto].
    destruct (session st inp) as [[st1 tr1] [|]]; [|discriminate].
    specialize (IH st1).
    destruct (retry_loop st1 script) as [[st2 tr2] fin]. exact IH.
Qed.

(** * Invariants of a run *)

Section RunInvariant.

(** A property [I] of the state and a property [P] of the actions that
    every tick whose input satisfies [Q] keeps. *)
Variable I : state -> Prop.
Variable P : action -> Prop.
Variable Q : tick_input -> Prop.

Hypothesis I_flag : forall st b, I st -> I (set_running b st).
Hypothesis tick_keeps :
  forall sock st inp, Q inp -> I st ->
    I (state_of (tick sock st inp)) /\ Forall P (trace_of (tick sock st inp)).
Hypothesis P_connect : forall r, P (Connect r).
Hypothesis P_shutdown : P Shutdown.
Hypothesis P_stop : forall r, P (Send stop_command r).
Hypothesis P_close : P Close.
Hypothesis P_sleep : P (Sleep 5).
Hypothesis P_quit : P PygameQuit.

Lemma connected_loop_keeps (sock : socket) (inps : list tick_input)
  (st : state) :
  Forall Q inps -> I st ->
  I (state_of (connected_loop sock st inps)) /\
  Forall P (trace_of (connected_loop sock st inps)).
Proof.
  unfold trace_of, state_of.
  intros HQ. revert st. induction HQ as [|inp inps Hq HQ IH]; intros st Hi.
  - simpl. destruct (running st); simpl; auto.
  - simpl. destruct (running st); [|simpl; auto].
    destruct (tick_keeps sock st inp Hq Hi) as [Hi1 Ht].
    unfold trace_of, state_of in Hi1, Ht.
    destruct (tick sock st inp) as [[st1 tr1] [u|e]]; simpl in *; [|auto].
    destruct (IH st1 Hi1) as [Hi2 Ht2].
    destruct (connected_loop sock st1 inps) as [[st2 tr2] o]. simpl in *.
    split; [exact Hi2 | apply Forall_app; auto].
Qed.

Lemma session_keeps (st : state) (inp : session_input) :
  Forall Q (ticks inp) -> I st ->
  I (state_of (session st inp)) /\ Forall P (trace_of (session st inp)).
Proof.
  intros HQ Hi. unfold session, trace_of, state_of.
  assert (Htry : I (snd (fst (fst (try_block st inp)))) /\
                 Forall P (snd (fst (try_block st inp)))).
  { unfold try_block.
    destruct (socket_result inp); [|simpl; auto].
    destruct (connect_result inp); [|simpl; auto].
    destruct (connected_loop_keeps {| connected := true |} (ticks inp) st
                HQ Hi) as [Hi1 Ht].
    unfold trace_of, state_of in Hi1, Ht.
    destruct (connected_loop _ st (ticks inp)) as [[st1 tr1] o].
    simpl in *. auto. }
  destruct (try_block st inp) as [[[sock st1] tr1] o].
  simpl in Htry. destruct Htry as [Hi1 Ht1].
  assert (Hex : I (fst (except_clauses st1 o)) /\
                Forall P (snd (except_clauses st1 o))).
  { destruct o as [|e|]; simpl; auto.
    destruct (is_network_error e); simpl; auto. }
  assert (Hfs : Forall P (final_stop sock (final_send_result inp)))
    by (destruct sock; simpl; auto).
  assert (Hrd : forall s, Forall P (retry_delay s))
    by (intros s; unfold retry_delay; destruct (running s); auto).
  destruct o as [|e|]; [| |simpl; auto];
    destruct (except_clauses st1 _) as [st2 tr2]; simpl in *;
    destruct Hex as [Hi2 Ht2]; (split; [exact Hi2|]);
    repeat (apply Forall_app; split); auto.
Qed.

Lemma retry_loop_keeps (script : list session_input) (st : state) :
  Forall (fun inp => Forall Q (ticks inp)) script -> I st ->
  I (state_of (retry_loop st script)) /\
  Forall P (trace_of (retry_loop st script)).
Proof.
  unfold trace_of, state_of.
  intros HQ. revert st. induction HQ as [|inp script Hq HQ IH]; intros st Hi.
  - simpl. destruct (running st); simpl; auto.
  - simpl. destruct (running st); [|simpl; auto].
    destruct (session_keeps st inp Hq Hi) as [Hi1 Ht].
    unfold trace_of, state_of in Hi1, Ht.
    destruct (session st inp) as [[st1 tr1] [|]]; simpl in *; [|auto].
    destruct (IH st1 Hi1) as [Hi2 Ht2].
    destruct (retry_loop st1 script) as [[st2 tr2] fin]. simpl in *.
    split; [exact Hi2 | apply Forall_app; auto].
Qed.

Lemma run_keeps (script : list session_input) (st : state) :
  Forall (fun inp => Forall Q (ticks inp)) script -> I st ->
  I (state_of (run_from st script)) /\
  Forall P (trace_of (run_from st script)).
Proof.
  intros HQ Hi. unfold run_from.
  destruct (retry_loop_keeps script st HQ Hi) as [Hi1 Ht].
  unfold trace_of, state_of in *.
  destruct (retry_loop st script) as [[st1 tr] fin]. simpl in *.
  split; [exact Hi1|]. destruct fin; [apply Forall_app|]; auto.
Qed.

End RunInvariant.

(** ** Powers within the motor range *)

Lemma stop_command_power_ok : power_ok stop_command.
Proof. unfold power_ok, MAX_MOTOR_POWER. simpl. lia. Qed.

(** At a throttle value the mixer returns a command, within range. *)
Lemma mixer_at_throttle (keys : keys_state) (s : float) :
  In s throttle_values ->
  exists c : command,
    get_keyboard_inputs_from_pygame keys s = Ok c /\ power_ok c.
Proof.
  intros Hs. destruct (throttle_values_bounded s Hs) as [H0 H1].
  exact (mixer_power_bounded keys s H0 H1).
Qed.

Lemma tick_powers (sock : socket) (st : state) (inp : tick_input) :
  True -> In (current_speed st) throttle_values ->
  In (current_speed (state_of (tick sock st inp))) throttle_values /\
  Forall powers_ok (trace_of (tick sock st inp)).
Proof.
  intros _ Hs. unfold tick, trace_of, state_of.
  pose proof (handle_events_speed (events inp) st Hs) as Hs1.
  pose proof (handle_events_trace (events inp) st) as Hmarks.
  destruct (handle_events st (events inp)) as [st1 tr_ev].
  cbn [fst snd] in *.
  assert (Hev : Forall powers_ok tr_ev).
  { eapply Forall_impl; [|exact Hmarks]. intros a <-. exact I. }
  assert (Hmsg : exists oc msg,
    (if is_sending st1
     then commands <- get_keyboard_inputs_from_pygame (pressed inp)
                        (current_speed st1) ;;
          Ok (Some commands, commands)
     else Ok (None, stop_command)) = Ok (oc, msg) /\ power_ok msg).
  { destruct (is_sending st1).
    - destruct (mixer_at_throttle (pressed inp) _ Hs1) as [c [-> Hc]].
      cbn [bind]. eauto.
    - eauto using stop_command_power_ok. }
  destruct Hmsg as (oc & msg & -> & Hmsg).
  destruct (sendall sock (send_result inp)); cbn [fst snd];
    (split; [exact Hs1|]);
    (apply Forall_cons; [exact I|]); apply Forall_app; (split; [exact Hev|]);
    repeat first [ apply Forall_nil
                 | apply Forall_cons; [first [exact I | exact Hmsg]|] ].
Qed.

(** X7: in every run from the initial state, whatever the user and the
    network do, every command handed to the socket has its four powers
    within [-MAX_MOTOR_POWER, MAX_MOTOR_POWER], and the throttle ends
    within [0.0, 1.0]. *)
Theorem commands_in_range (script : list session_input) :
  let result := run_network_client script in
  Forall powers_ok (trace_of result) /\
  (0.0 <=? current_speed (state_of result))%float = true /\
  (current_speed (state_of result) <=? 1.0)%float = true.
Proof.
  cbv zeta. unfold run_network_client.
  assert (Hq : Forall (fun inp => Forall (fun _ : tick_input => True)
                                    (ticks inp)) script).
  { apply Forall_forall. intros inp _. apply Forall_forall. intros t _.
    exact I. }
  destruct (run_keeps (fun st => In (current_speed st) throttle_values)
              powers_ok (fun _ => True)
              (fun st b H => H) tick_powers
              (fun r => I) I (fun r => stop_command_power_ok) I I I
              script initial_state Hq initial_speed_in) as [Hs Ht].
  split; [exact Ht | exact (throttle_values_bounded _ Hs)].
Qed.

(** ** Before the first click *)

Lemma handle_events_no_click (evs : list pg_event) (st : state) :
  existsb is_click evs = false -> is_sending st = false ->
  is_sending (fst (handle_events st evs)) = false.
Proof.
  revert st. induction evs as [|ev evs IH]; intros st Hc Hs; simpl; auto.
  simpl in Hc. apply orb_false_iff in Hc. destruct Hc as [Hev Hc].
  assert (H1 : is_sending (fst (handle_event st ev)) = false).
  { destruct ev as [|b pos|k|]; try discriminate; simpl; auto.
    destruct k; simpl; auto. }
  destruct (handle_event st ev) as [st1 tr1].
  specialize (IH st1 Hc H1).
  destruct (handle_events st1 evs) as [st2 tr2]. exact IH.
Qed.

Lemma tick_idle_when_stopped (sock : socket) (st : state)
  (inp : tick_input) :
  is_sending (fst (handle_events st (events inp))) = false ->
  is_sending (state_of (tick sock st inp)) = false /\
  Forall idle_action (trace_of (tick sock st inp)).
Proof.
  unfold tick, trace_of, state_of.
  pose proof (handle_events_trace (events inp) st) as Hmarks.
  destruct (handle_events st (events inp)) as [st1 tr_ev]. simpl in *.
  intros Hs. rewrite Hs.
  assert (Hev : Forall idle_action tr_ev).
  { eapply Forall_impl; [|exact Hmarks]. intros a <-. exact I. }
  destruct (sendall sock (send_result inp)); cbn [fst snd];
    (split; [exact Hs|]);
    (apply Forall_cons; [exact I|]); apply Forall_app; (split; [exact Hev|]);
    repeat first [ apply Forall_nil
                 | apply Forall_cons;
                   [first [exact I | reflexivity | split; reflexivity]|] ].
Qed.

Lemma tick_idle (sock : socket) (st : state) (inp : tick_input) :
  no_click inp -> is_sending st = false ->
  is_sending (state_of (tick sock st inp)) = false /\
  Forall idle_action (trace_of (tick sock st inp)).
Proof.
  intros Hc Hs. apply tick_idle_when_stopped.
  now apply handle_events_no_click.
Qed.

(** X8: as long as no mouse button has gone down, the client is idle:
    whatever keys are held or pressed and whatever the network does,
    every command it hands to the socket is the stop command. *)
Theorem idle_until_first_click (script : list session_input) :
  Forall (fun inp => Forall no_click (ticks inp)) script ->
  Forall idle_action (trace_of (run_network_client script)) /\
  is_sending (state_of (run_network_client script)) = false.
Proof.
  intros Hq. unfold run_network_client.
  destruct (run_keeps (fun st => is_sending st = false) idle_action no_click
              (fun st b H => H) tick_idle
              (fun r => I) I (fun r => eq_refl) I I I
              script initial_state Hq eq_refl) as [Hs Ht].
  split; [exact Ht | exact Hs].
Qed.

Lemma idle_until_first_click_witness :
  Forall idle_action (trace_of (run_network_client keys_without_click)) /\
  is_sending (state_of (run_network_client keys_without_click)) = false.
Proof.
  apply (idle_until_first_click keys_without_click).
  repeat constructor.
Defined.

Lemma tick_when_stopped (sock : socket) (st : state) (inp : tick_input) :
  is_sending (fst (handle_events st (events inp))) = false ->
  trace_of (tick sock st inp) =
    Poll :: flat_map signal_mark (events inp) ++
    match send_result inp with
    | Ok _ => [Send stop_command (Ok tt); Render false None; Tick30]
    | Raise e => [Send stop_command (Raise e)]
    end.
Proof.
  unfold tick, trace_of.
  destruct (handle_events_signal (events inp) st) as [Hm _].
  destruct (handle_events st (events inp)) as [st1 tr_ev].
  cbn [fst snd] in *. subst tr_ev.
  intros Hs. rewrite Hs. unfold sendall.
  destruct (send_result inp); reflexivity.
Qed.

(** X9: when the space key is pressed during a tick and no mouse button
    goes down after it in the same tick, that tick hands the socket the
    stop command, and nothing else, whatever keys are held and whether
    or not the client was sending; it renders the START button when the
    send goes through, and the client is left not sending. *)
Theorem space_stops (sock : socket) (st : state)
  (before after : list pg_event) (keys : keys_state) (r : res unit) :
  existsb is_click after = false ->
  let inp := {| events := before ++ KEYDOWN K_SPACE :: after;
                pressed := keys; send_result := r |} in
  is_sending (state_of (tick sock st inp)) = false /\
  trace_of (tick sock st inp) =
    Poll :: flat_map signal_mark (before ++ KEYDOWN K_SPACE :: after) ++
    match r with
    | Ok _ => [Send stop_command (Ok tt); Render false None; Tick30]
    | Raise e => [Send stop_command (Raise e)]
    end /\
  Forall idle_action (trace_of (tick sock st inp)).
Proof.
  intros Hafter inp.
  assert (Hs : is_sending (fst (handle_events st (events inp))) = false).
  { unfold inp. cbn [events]. rewrite handle_events_app.
    destruct (handle_events st before) as [st1 tr1].
    pose proof (handle_events_no_click after (set_is_sending false st1)
                  Hafter eq_refl) as H.
    simpl. destruct (handle_events (set_is_sending false st1) after).
    exact H. }
  destruct (tick_idle_when_stopped sock st inp Hs) as [Hoff Hidle].
  split; [exact Hoff|]. split; [|exact Hidle].
  exact (tick_when_stopped sock st inp Hs).
Qed.

Lemma space_stops_witness :
  is_sending (state_of (tick {| connected := true |} initial_state
     {| events := [MOUSEBUTTONDOWN 1 (200, 150)] ++
                  KEYDOWN K_SPACE :: [KEYDOWN K_UP];
        pressed := held [K_w]; send_result := Ok tt |})) = false /\
  trace_of (tick {| connected := true |} initial_state
     {| events := [MOUSEBUTTONDOWN 1 (200, 150)] ++
                  KEYDOWN K_SPACE :: [KEYDOWN K_UP];
        pressed := held [K_w]; send_result := Ok tt |}) =
    [Poll; Send stop_command (Ok tt); Render false None; Tick30] /\
  Forall idle_action (trace_of (tick {| connected := true |} initial_state
     {| events := [MOUSEBUTTONDOWN 1 (200, 150)] ++
                  KEYDOWN K_SPACE :: [KEYDOWN K_UP];
        pressed := held [K_w]; send_result := Ok tt |})).
Proof.
  apply (space_stops {| connected := true |} initial_state
           [MOUSEBUTTONDOWN 1 (200, 150)] [KEYDOWN K_UP] (held [K_w])
           (Ok tt)).
  reflexivity.
Defined.

(** ** Transport errors never stop the client *)

Lemma handle_events_no_quit (evs : list pg_event) (st : state) :
  existsb quit_event evs = false -> snd (handle_events st evs) = [].
Proof.
  revert st. induction evs as [|ev evs IH]; intros st Hq; simpl; auto.
  simpl in Hq. apply orb_false_iff in Hq. destruct Hq as [Hev Hq].
  assert (H1 : snd (handle_event st ev) = []).
  { destruct ev as [|b pos|k|]; try discriminate; simpl; auto.
    - destruct (b =? 1); [destruct (collidepoint _ _)|]; reflexivity.
    - destruct k; try discriminate; reflexivity. }
  destruct (handle_event st ev) as [st1 tr1]. simpl in H1. subst tr1.
  specialize (IH st1 Hq). destruct (handle_events st1 evs) as [st2 tr2].
  exact IH.
Qed.

Lemma sendall_transport (sock : socket) (r : res unit) :
  transport_result r = true -> transport_result (sendall sock r) = true.
Proof. intros H. exact H. Qed.

Lemma tick_benign (sock : socket) (st : state) (inp : tick_input) :
  benign_tick inp = true -> In (current_speed st) throttle_values ->
  has_shutdown (trace_of (tick sock st inp)) = false /\
  In (current_speed (state_of (tick sock st inp))) throttle_values /\
  transport_result (snd (tick sock st inp)) = true.
Proof.
  intros Hb Hs. apply andb_true_iff in Hb. destruct Hb as [Hq Hr].
  apply negb_true_iff in Hq.
  unfold tick, trace_of, state_of.
  pose proof (handle_events_speed (events inp) st Hs) as Hs1.
  pose proof (handle_events_no_quit (events inp) st Hq) as Hnil.
  destruct (handle_events st (events inp)) as [st1 tr_ev].
  cbn [fst snd] in *. subst tr_ev.
  assert (Hmsg : exists oc msg,
    (if is_sending st1
     then commands <- get_keyboard_inputs_from_pygame (pressed inp)
                        (current_speed st1) ;;
          Ok (Some commands, commands)
     else Ok (None, stop_command)) = Ok (oc, msg)).
  { destruct (is_sending st1); [|eauto].
    destruct (mixer_at_throttle (pressed inp) _ Hs1) as [c [-> _]].
    cbn [bind]. eauto. }
  destruct Hmsg as (oc & msg & ->).
  pose proof (sendall_transport sock _ Hr) as Hr'.
  destruct (sendall sock (send_result inp)) as [u|e]; cbn [fst snd];
    auto.
Qed.

Lemma connected_loop_benign (sock : socket) (inps : list tick_input)
  (st : state) :
  forallb benign_tick inps = true ->
  In (current_speed st) throttle_values ->
  has_shutdown (trace_of (connected_loop sock st inps)) = false /\
  In (current_speed (state_of (connected_loop sock st inps)))
     throttle_values /\
  match snd (connected_loop sock st inps) with
  | Raised e => is_network_error e = true
  | _ => True
  end.
Proof.
  unfold trace_of, state_of.
  revert st. induction inps as [|inp inps IH]; intros st Hb Hs; simpl.
  - destruct (running st); cbn [fst snd]; auto.
  - destruct (running st); [|cbn [fst snd]; auto].
    simpl in Hb. apply andb_true_iff in Hb. destruct Hb as [Hb1 Hb].
    destruct (tick_benign sock st inp Hb1 Hs) as (Ht & Hs1 & Hr).
    unfold trace_of, state_of in Ht, Hs1.
    destruct (tick sock st inp) as [[st1 tr1] [u|e]]; cbn [fst snd] in *;
      [|auto].
    destruct (IH st1 Hb Hs1) as (Ht2 & Hs2 & Ho).
    destruct (connected_loop sock st1 inps) as [[st2 tr2] o].
    cbn [fst snd] in *. rewrite has_shutdown_app, Ht, Ht2. auto.
Qed.

Lemma session_benign (st : state) (inp : session_input) :
  benign_session inp = true -> In (current_speed st) throttle_values ->
  has_shutdown (trace_of (session st inp)) = false /\
  In (current_speed (state_of (session st inp))) throttle_values.
Proof.
  intros Hb Hs. unfold benign_session in Hb.
  apply andb_true_iff in Hb. destruct Hb as [Hb Hticks].
  apply andb_true_iff in Hb. destruct Hb as [Hsock Hconn].
  unfold session, trace_of, state_of.
  assert (Htry : has_shutdown (snd (fst (try_block st inp))) = false /\
                 In (current_speed (snd (fst (fst (try_block st inp)))))
                    throttle_values /\
                 match snd (try_block st inp) with
                 | Raised e => is_network_error e = true
                 | _ => True
                 end).
  { unfold try_block.
    destruct (socket_result inp) as [u|e]; [|cbn [fst snd]; auto].
    destruct (connect_result inp) as [u'|e]; [|cbn [fst snd]; auto].
    pose proof (connected_loop_benign {| connected := true |} (ticks inp) st
                  Hticks Hs) as H.
    unfold trace_of, state_of in H.
    destruct (connected_loop _ st (ticks inp)) as [[st1 tr1] o]. exact H. }
  destruct (try_block st inp) as [[[sock st1] tr1] o].
  cbn [fst snd] in Htry. destruct Htry as (Ht & Hs1 & Ho).
  pose proof (final_stop_counts sock (final_send_result inp)) as [Hf _].
  assert (Hdelay : forall s, has_shutdown (retry_delay s) = false)
    by (intros s; unfold retry_delay; destruct (running s); reflexivity).
  destruct o as [|e|]; [| |cbn [fst snd]; auto].
  - cbn [except_clauses fst snd].
    rewrite !has_shutdown_app, Ht, Hf, Hdelay. auto.
  - cbn [except_clauses]. rewrite Ho. cbn [fst snd].
    rewrite !has_shutdown_app, Ht, Hf, Hdelay. auto.
Qed.

Lemma retry_loop_benign (script : list session_input) (st : state) :
  forallb benign_session script = true ->
  In (current_speed st) throttle_values ->
  has_shutdown (trace_of (retry_loop st script)) = false.
Proof.
  unfold trace_of.
  revert st. induction script as [|inp script IH]; intros st Hb Hs; simpl.
  - destruct (running st); reflexivity.
  - destruct (running st); [|reflexivity].
    simpl in Hb. apply andb_true_iff in Hb. destruct Hb as [Hb1 Hb].
    destruct (session_benign st inp Hb1 Hs) as [Ht Hs1].
    unfold trace_of, state_of in Ht, Hs1.
    destruct (session st inp) as [[st1 tr1] [|]]; cbn [fst snd] in *;
      [|exact Ht].
    specialize (IH st1 Hb Hs1).
    destruct (retry_loop st1 script) as [[st2 tr2] fin].
    cbn [fst snd] in *. now rewrite has_shutdown_app, Ht, IH.
Qed.

(** X10: when no quit event and no escape key arrives, and the socket
    calls of the [try] block raise nothing but the four transport errors
    (refused, reset or timed-out connections, broken pipes), the client
    never shuts down and [run_network_client] does not return, however
    many connections fail: the mixer itself never raises. *)
Theorem transport_errors_never_stop (script : list session_input) :
  forallb benign_session script = true ->
  has_shutdown (trace_of (run_network_client script)) = false /\
  running (state_of (run_network_client script)) = true /\
  snd (run_network_client script) = false.
Proof.
  intros Hb. unfold run_network_client, run_from.
  pose proof (retry_loop_benign script initial_state Hb initial_speed_in)
    as Hsd.
  pose proof (retry_loop_flag script initial_state) as Hflag.
  pose proof (retry_loop_returned script initial_state) as Hret.
  destruct (retry_loop initial_state script) as [[st1 tr] fin].
  unfold trace_of, state_of in *. cbn [fst snd] in *.
  rewrite Hsd in Hflag. change (running initial_state) with true in Hflag.
  simpl in Hflag.
  destruct fin; [rewrite (Hret eq_refl) in Hflag; discriminate|].
  cbn [fst snd]. auto.
Qed.

Lemma transport_errors_never_stop_witness :
  has_shutdown (trace_of (run_network_client
    [refused_session; broken_session; refused_session])) = false /\
  running (state_of (run_network_client
    [refused_session; broken_session; refused_session])) = true /\
  snd (run_network_client
    [refused_session; broken_session; refused_session]) = false.
Proof.
  apply (transport_errors_never_stop
           [refused_session; broken_session; refused_session]).
  reflexivity.
Defined.

(** ** The life of the socket *)

Lemma link_run_app (a b : trace) (q : link) :
  link_run q (a ++ b) =
  match link_run q a with
  | Some q' => link_run q' b
  | None => None
  end.
Proof.
  revert q. induction a as [|x a IH]; intros q; simpl; [reflexivity|].
  destruct (link_step q x); [apply IH | reflexivity].
Qed.

Lemma link_run_marks (tr : trace) (q : link) :
  Forall (eq Shutdown) tr -> on_line q = true ->
  exists q' : link, link_run q tr = Some q' /\ on_line q' = true.
Proof.
  intros H. revert q. induction H as [|x tr <- H IH]; intros q Hq.
  - exists q. split; [reflexivity | exact Hq].
  - destruct q; try discriminate Hq; cbn [link_run link_step];
      apply IH; reflexivity.
Qed.

Lemma tick_link (sock : socket) (st : state) (inp : tick_input) (q : link) :
  on_line q = true ->
  exists q' : link,
    link_run q (trace_of (tick sock st inp)) = Some q' /\
    on_line q' = true.
Proof.
  intros Hq. unfold tick, trace_of.
  pose proof (handle_events_trace (events inp) st) as Hmarks.
  destruct (handle_events st (events inp)) as [st1 tr_ev]. simpl in Hmarks.
  destruct (link_run_marks tr_ev Up Hmarks eq_refl) as [q1 [Hm Hq1]].
  assert (Hpoll : forall tl, link_run q (Poll :: tr_ev ++ tl)
                             = link_run q1 tl).
  { intros tl. destruct q; try discriminate Hq;
      cbn [link_run link_step]; now rewrite link_run_app, Hm. }
  destruct (if is_sending st1 then _ else _) as [[oc msg]|e];
    [destruct (sendall sock (send_result inp))|]; cbn [fst snd].
  - rewrite Hpoll. exists Up. split; [|reflexivity].
    destruct q1; try discriminate Hq1; cbn [link_run link_step];
      destruct (is_stop msg); reflexivity.
  - rewrite Hpoll.
    exists (if is_stop msg then Stopped else Up).
    split; [|destruct (is_stop msg); reflexivity].
    destruct q1; try discriminate Hq1; reflexivity.
  - rewrite <- (app_nil_r tr_ev), Hpoll. exists q1. split; [reflexivity|].
    exact Hq1.
Qed.

Lemma connected_loop_link (sock : socket) (inps : list tick_input)
  (st : state) (q : link) :
  on_line q = true ->
  exists q' : link,
    link_run q (trace_of (connected_loop sock st inps)) = Some q' /\
    on_line q' = true.
Proof.
  unfold trace_of.
  revert st q. induction inps as [|inp inps IH]; intros st q Hq; simpl.
  - exists q. destruct (running st); split; first [reflexivity | exact Hq].
  - destruct (running st);
      [|exists q; split; [reflexivity | exact Hq]].
    destruct (tick_link sock st inp q Hq) as [q1 [Ht Hq1]].
    unfold trace_of in Ht.
    destruct (tick sock st inp) as [[st1 tr1] [u|e]]; cbn [fst snd] in *;
      [|exists q1; split; [exact Ht | exact Hq1]].
    destruct (IH st1 q1 Hq1) as [q2 [Hl Hq2]].
    destruct (connected_loop sock st1 inps) as [[st2 tr2] o].
    cbn [fst snd] in *. exists q2.
    split; [now rewrite link_run_app, Ht | exact Hq2].
Qed.

Lemma final_stop_link (q : link) (sock : socket) (r : res unit)
  (tl : trace) :
  on_line q = true ->
  link_run q (final_stop (Some sock) r ++ tl) = link_run Down tl.
Proof.
  intros Hq. unfold final_stop.
  destruct q; try discriminate Hq; destruct (sendall sock r); reflexivity.
Qed.

(** A pass of the outer loop that comes to its end leaves no socket
    behind, and has taken the delay exactly when the client goes on. *)
Lemma session_link (st : state) (inp : session_input) (q : link) :
  running st = true -> q = Fresh \/ q = Delayed ->
  exists q' : link,
    link_run q (trace_of (session st inp)) = Some q' /\
    if snd (session st inp)
    then q' = if running (state_of (session st inp)) then Delayed else Down
    else on_line q' = true.
Proof.
  intros Hrun Hq. unfold session, try_block, trace_of, state_of.
  destruct (socket_result inp) as [u|e].
  - destruct (connect_result inp) as [u'|e].
    + destruct (connected_loop_link {| connected := true |} (ticks inp) st
                  Up eq_refl) as [q1 [Hl Hq1]].
      unfold trace_of in Hl.
      destruct (connected_loop _ st (ticks inp)) as [[st1 tr1] o].
      cbn [fst snd] in Hl.
      assert (Hc : forall tl, link_run q ((Connect (Ok tt) :: tr1) ++ tl)
                              = link_run q1 tl).
      { intros tl. destruct Hq as [-> | ->]; cbn [app link_run link_step];
          now rewrite link_run_app, Hl. }
      destruct o as [|e|]; cbn [except_clauses fst snd].
      * rewrite Hc. cbn [app].
        rewrite (final_stop_link q1 _ _ _ Hq1).
        unfold retry_delay. eexists. split; [|reflexivity].
        destruct (running st1); reflexivity.
      * destruct (is_network_error e); cbn [fst snd]; rewrite Hc.
        -- cbn [app]. rewrite (final_stop_link q1 _ _ _ Hq1).
           unfold retry_delay. eexists. split; [|reflexivity].
           destruct (running st1); reflexivity.
        -- assert (Hdown : link_run q1 [Shutdown] = Some Up)
             by (destruct q1; try discriminate Hq1; reflexivity).
           rewrite link_run_app, Hdown.
           rewrite (final_stop_link Up _ _ _ eq_refl).
           unfold retry_delay. cbn [set_running running].
           eexists. split; reflexivity.
      * rewrite <- (app_nil_r (_ :: tr1)). rewrite Hc.
        exists q1. split; [reflexivity | exact Hq1].
    + cbn [except_clauses fst snd].
      destruct (is_network_error e); cbn [fst snd]; unfold retry_delay;
        cbn [set_running running]; rewrite ?Hrun;
        eexists; (split; [|reflexivity]);
        destruct Hq as [-> | ->]; reflexivity.
  - cbn [except_clauses fst snd].
    destruct (is_network_error e); cbn [fst snd]; unfold retry_delay;
      cbn [set_running running]; rewrite ?Hrun;
      eexists; (split; [|reflexivity]);
      destruct Hq as [-> | ->]; reflexivity.
Qed.

Lemma retry_loop_link (script : list session_input) (st : state)
  (q : link) :
  q = Fresh \/ q = (if running st then Delayed else Down) ->
  exists q' : link,
    link_run q (trace_of (retry_loop st script)) = Some q' /\
    (snd (retry_loop st script) = true -> q' = Fresh \/ q' = Down).
Proof.
  unfold trace_of.
  revert st q. induction script as [|inp script IH]; intros st q Hq; simpl.
  - destruct (running st); cbn [fst snd link_run].
    + exists q. split; [reflexivity | discriminate].
    + exists q. split; [reflexivity | intros _; tauto].
  - destruct (running st) eqn:Hrun; cbn [fst snd link_run];
      [|exists q; split; [reflexivity | intros _; tauto]].
    destruct (session_link st inp q Hrun Hq) as [q1 [Hs Hq1]].
    unfold trace_of, state_of in Hs, Hq1.
    destruct (session st inp) as [[st1 tr1] [|]]; cbn [fst snd] in *.
    + subst q1.
      destruct (IH st1 (if running st1 then Delayed else Down)
                  (or_intror eq_refl)) as [q' [Hr Hfin]].
      destruct (retry_loop st1 script) as [[st2 tr2] fin].
      cbn [fst snd] in *. exists q'.
      split; [now rewrite link_run_app, Hs | exact Hfin].
    + exists q1. split; [exact Hs | discriminate].
Qed.

Lemma run_from_link (st : state) (script : list session_input) :
  exists q : link,
    link_run Fresh (trace_of (run_from st script)) = Some q /\
    (snd (run_from st script) = true -> q = Done).
Proof.
  unfold run_from, trace_of.
  destruct (retry_loop_link script st Fresh (or_introl eq_refl))
    as [q [Hr Hfin]].
  unfold trace_of in Hr.
  destruct (retry_loop st script) as [[st1 tr] fin]. cbn [fst snd] in *.
  destruct fin.
  - exists Done. rewrite link_run_app, Hr.
    split; [|reflexivity].
    destruct (Hfin eq_refl) as [-> | ->]; reflexivity.
  - exists q. split; [exact Hr | discriminate].
Qed.

(** The life cycle is not vacuous: closing a connected socket that was
    last handed a driving command is not part of it. *)
Example close_needs_stop (c : command) (r : res unit) :
  is_stop c = false ->
  link_run Fresh [Connect (Ok tt); Poll; Send c r; Close] = None.
Proof.
  intros Hc. cbn [link_run link_step]. destruct r; rewrite Hc; reflexivity.
Qed.

(** X11: every run follows the life cycle of the socket: a connect is
    attempted only at the start or right after a 5 second delay, ticks
    (poll, send, render, wait) happen only on a connected socket, a socket
    whose connect failed is handed nothing but the stop command, once
    and whatever comes of it, a socket is closed only right after the
    stop command was
    handed to it, and always before the delay, the next attempt or
    [pygame.quit()], and nothing is sent or closed once it is closed. *)
Theorem socket_life_cycle (st : state) (script : list session_input) :
  (exists q : link,
     link_run Fresh (trace_of (run_from st script)) = Some q /\
     (snd (run_from st script) = true -> q = Done)) /\
  (exists q : link,
     link_run Fresh (trace_of (run_network_client script)) = Some q /\
     (snd (run_network_client script) = true -> q = Done)).
Proof.
  split; [apply run_from_link | apply (run_from_link initial_state)].
Qed.

Lemma link_spacing (tr : trace) (q q' : link) (last now : Z) :
  link_run q tr = Some q' -> clock_ok q last now ->
  spaced (last :: connect_times now tr) = true.
Proof.
  revert q last now. induction tr as [|a tr IH]; intros q last now Hr Hc;
    [reflexivity|].
  simpl in Hr. destruct (link_step q a) as [q1|] eqn:Hstep; [|discriminate].
  assert (Hkeep : forall last', clock_ok q1 last' (now + duration a) ->
                  spaced (last' :: connect_times (now + duration a) tr)
                  = true)
    by (intros last' Hc'; exact (IH q1 last' _ Hr Hc')).
  destruct a as [r| | |c r|b oc| | |s| ]; cbn [connect_times].
  - assert (Hq : (q = Fresh \/ q = Delayed) /\ (q1 = Up \/ q1 = HalfOpen)).
    { destruct r, q; simpl in Hstep; try discriminate;
        injection Hstep as <-; auto. }
    destruct Hq as [Hq Hq1].
    change (spaced (last :: now :: connect_times (now + 0) tr))
      with ((last + 5 <=? now) &&
            spaced (now :: connect_times (now + 0) tr)).
    apply andb_true_iff. split.
    + apply Z.leb_le. destruct Hq as [-> | ->]; exact Hc.
    + apply (Hkeep now). destruct Hq1 as [-> | ->]; simpl; lia.
  - apply Hkeep. destruct q; simpl in Hstep; try discriminate;
      injection Hstep as <-; simpl in *; lia.
  - apply Hkeep. destruct q; simpl in Hstep; try discriminate;
      injection Hstep as <-; simpl in *; lia.
  - apply Hkeep. destruct q, r; simpl in Hstep; try discriminate;
      destruct (is_stop c); try discriminate;
      injection Hstep as <-; simpl in *; lia.
  - apply Hkeep. destruct q; simpl in Hstep; try discriminate;
      injection Hstep as <-; simpl in *; lia.
  - apply Hkeep. destruct q; simpl in Hstep; try discriminate;
      injection Hstep as <-; simpl in *; lia.
  - apply Hkeep. destruct q; simpl in Hstep; try discriminate;
      injection Hstep as <-; simpl in *; lia.
  - apply Hkeep. cbn [duration].
    destruct q; simpl in Hstep; try discriminate;
      destruct (Z.eqb_spec s 5) as [->|]; try discriminate;
      injection Hstep as <-; simpl in *; lia.
  - apply Hkeep. destruct q; simpl in Hstep; try discriminate;
      injection Hstep as <-; simpl in *; lia.
Qed.

(** X12: in every run, whatever fails and however often, two successive
    connect attempts start at least 5 seconds apart. *)
Theorem connects_spaced (st : state) (script : list session_input) :
  spaced (connect_times 0 (trace_of (run_from st script))) = true.
Proof.
  destruct (run_from_link st script) as [q [Hr _]].
  pose proof (link_spacing _ Fresh q (-5) 0 Hr) as H.
  specialize (H ltac:(simpl; lia)).
  destruct (connect_times 0 (trace_of (run_from st script))) as [|t l];
    [reflexivity|].
  change (spaced (-5 :: t :: l)) with ((-5 + 5 <=? t) && spaced (t :: l)) in H.
  apply andb_true_iff in H. exact (proj2 H).
Qed.

(** * While the peer is away *)

Lemma retry_loop_unreachable (script : list session_input) (st : state) :
  running st = true -> forallb connect_fails script = true ->
  retry_loop st script = (st, flat_map failed_attempt script, false).
Proof.
  intros Hrun. induction script as [|inp script IH]; intros Hf; simpl.
  - now rewrite Hrun.
  - simpl in Hf. apply andb_true_iff in Hf. destruct Hf as [Hinp Hf].
    rewrite Hrun. unfold connect_fails in Hinp. unfold failed_attempt.
    destruct (socket_result inp) as [[]|] eqn:Hs; [|discriminate].
    destruct (connect_result inp) as [|e] eqn:Hc; [discriminate|].
    rewrite (session_connect_failed st inp e Hrun Hs Hc Hinp).
    rewrite (IH Hf). reflexivity.
Qed.

(** X16: while every connect attempt fails with a transport error, the
    client does nothing but attempt, hand the stop command to the socket
    (whatever comes of it), close and sleep: it polls no event and
    renders nothing, so that quit events, the escape key, clicks and
    speed keys waiting in the queue are not handled and the state stays
    as it was. *)
Theorem peer_unreachable (script : list session_input) :
  forallb connect_fails script = true ->
  run_network_client script =
    (initial_state, flat_map failed_attempt script, false).
Proof.
  intros Hf. unfold run_network_client, run_from.
  now rewrite (retry_loop_unreachable script initial_state eq_refl Hf).
Qed.

Lemma peer_unreachable_witness :
  run_network_client [refused_with_quit_waiting; refused_with_quit_waiting] =
    (initial_state,
     flat_map failed_attempt
       [refused_with_quit_waiting; refused_with_quit_waiting],
     false).
Proof.
  apply (peer_unreachable
           [refused_with_quit_waiting; refused_with_quit_waiting]).
  reflexivity.
Defined.



(** * Speed and power *)



(** * The wire format *)

Module JsonFacts.

Import Ascii String Json.
Local Open Scope string_scope.

Lemma append_cancel (p a b : string) : p ++ a = p ++ b -> a = b.
Proof.
  induction p as [|c p IH]; simpl; intros H; [exact H|].
  injection H as H. auto.
Qed.

Lemma append_assoc (a b c : string) : (a ++ b) ++ c = a ++ b ++ c.
Proof.
  induction a as [|x a IH]; simpl; [reflexivity | now rewrite IH].
Qed.

Lemma all_chars_append (p : ascii -> bool) (a b : string) :
  all_chars p (a ++ b) = all_chars p a && all_chars p b.
Proof.
  induction a as [|x a IH]; simpl; [reflexivity|].
  now rewrite IH, andb_assoc.
Qed.

Lemma all_chars_impl (p q : ascii -> bool) (s : string) :
  (forall c, p c = true -> q c = true) ->
  all_chars p s = true -> all_chars q s = true.
Proof.
  intros Hpq. induction s as [|c s IH]; simpl; [reflexivity|].
  intros H. apply andb_true_iff in H. destruct H as [Hc Hs].
  rewrite (Hpq c Hc). auto.
Qed.

(** Two strings of characters in [p], each followed by something that
    stops [p], are equal as soon as the wholes are. *)
Lemma split_unique (p : ascii -> bool) (a b t u : string) :
  all_chars p a = true -> all_chars p b = true ->
  stops p t -> stops p u ->
  a ++ t = b ++ u -> a = b /\ t = u.
Proof.
  revert b. induction a as [|x a IH]; intros [|y b] Ha Hb Ht Hu H;
    simpl in *.
  - auto.
  - subst t. simpl in Ht. apply andb_true_iff in Hb. destruct Hb as [Hy _].
    congruence.
  - subst u. simpl in Hu. apply andb_true_iff in Ha. destruct Ha as [Hx _].
    congruence.
  - injection H as -> H. apply andb_true_iff in Ha, Hb.
    destruct (IH b (proj2 Ha) (proj2 Hb) Ht Hu H) as [-> ->]. auto.
Qed.

Lemma numeric_uint (d : Decimal.uint) :
  all_chars is_num (DecimalString.NilEmpty.string_of_uint d) = true.
Proof. induction d; simpl; auto. Qed.

Lemma numeric_str (z : Z) : all_chars is_num (str z) = true.
Proof.
  unfold str, DecimalString.NilZero.string_of_int,
    DecimalString.NilZero.string_of_uint.
  destruct (Z.to_int z) as [d|d]; destruct d; simpl;
    try reflexivity; apply numeric_uint.
Qed.

Lemma str_inj (z1 z2 : Z) : str z1 = str z2 -> z1 = z2.
Proof.
  unfold str. intros H. apply DecimalZ.to_int_inj.
  assert (Hnn : forall z, Z.to_int z <> Decimal.Pos Decimal.Nil /\
                          Z.to_int z <> Decimal.Neg Decimal.Nil).
  { intros [|p|p]; simpl; split; try discriminate;
      intros E; injection E as E;
      exact (DecimalPos.Unsigned.to_uint_nonnil p E). }
  destruct (Hnn z1) as [H1 H1'], (Hnn z2) as [H2 H2'].
  pose proof (DecimalString.NilZero.isi _ H1 H1') as E1.
  pose proof (DecimalString.NilZero.isi _ H2 H2') as E2.
  rewrite H, E2 in E1. now injection E1.
Qed.


(** The text of a mixer command, piece by piece. *)
Lemma dumps_command (c : command) :
  dumps (command_dict c) =
  ("{" ++ quote ++ "front_left" ++ quote ++ ": ") ++ str (front_left c) ++
  (", " ++ quote ++ "back_left" ++ quote ++ ": ") ++ str (back_left c) ++
  (", " ++ quote ++ "front_right" ++ quote ++ ": ") ++ str (front_right c) ++
  (", " ++ quote ++ "back_right" ++ quote ++ ": ") ++ str (back_right c) ++
  (", " ++ quote ++ "active" ++ quote ++ ": ") ++
  (if active c then "true" else "false") ++ "}".
Proof.
  unfold dumps, command_dict, dumps_items, dumps_value.
  repeat (rewrite !append_assoc; cbn [append quote]).
  destruct (active c); reflexivity.
Qed.

Lemma stops_comma (s : string) : stops is_num (", " ++ s).
Proof. reflexivity. Qed.

(** [json.dumps] loses nothing of a command. *)
Lemma dumps_command_inj (c1 c2 : command) :
  dumps (command_dict c1) = dumps (command_dict c2) -> c1 = c2.
Proof.
  rewrite !dumps_command. intros H.
  apply append_cancel in H.
  apply split_unique with (p := is_num) in H;
    [| apply numeric_str | apply numeric_str | reflexivity | reflexivity].
  destruct H as [Hfl H]. apply append_cancel in H.
  apply split_unique with (p := is_num) in H;
    [| apply numeric_str | apply numeric_str | reflexivity | reflexivity].
  destruct H as [Hbl H]. apply append_cancel in H.
  apply split_unique with (p := is_num) in H;
    [| apply numeric_str | apply numeric_str | reflexivity | reflexivity].
  destruct H as [Hfr H]. apply append_cancel in H.
  apply split_unique with (p := is_num) in H;
    [| apply numeric_str | apply numeric_str | reflexivity | reflexivity].
  destruct H as [Hbr H]. apply append_cancel in H.
  apply str_inj in Hfl, Hbl, Hfr, Hbr.
  destruct c1 as [a1 b1 c1 d1 e1], c2 as [a2 b2 c2 d2 e2]. simpl in *.
  subst. f_equal. destruct e1, e2; try reflexivity; discriminate H.
Qed.

Lemma stop_text_differs (c : command) : dumps (command_dict c) <> stop_text.
Proof.
  rewrite dumps_command. unfold stop_text. cbn. intros H. discriminate H.
Qed.

Lemma message_text_inj (o1 o2 : option command) :
  message_text o1 = message_text o2 -> o1 = o2.
Proof.
  destruct o1 as [c1|], o2 as [c2|]; simpl; intros H.
  - f_equal. now apply dumps_command_inj.
  - now apply stop_text_differs in H.
  - symmetry in H. now apply stop_text_differs in H.
  - reflexivity.
Qed.

Lemma num_not_closing (c : ascii) : is_num c = true -> not_closing c = true.
Proof.
  destruct c as [[|] [|] [|] [|] [|] [|] [|] [|]]; intros H;
    first [reflexivity | discriminate H].
Qed.

(** A message ends with its only closing brace. *)
Lemma message_frame (o : option command) :
  exists body : string,
    message_text o = body ++ "}" /\ all_chars not_closing body = true.
Proof.
  destruct o as [c|]; simpl.
  - rewrite dumps_command.
    eexists. split.
    + rewrite <- !append_assoc. reflexivity.
    + rewrite !all_chars_append.
      rewrite !(all_chars_impl _ _ _ num_not_closing (numeric_str _)).
      destruct (active c); reflexivity.
  - exists (String.substring 0 (String.length stop_text - 1) stop_text).
    split; vm_compute; reflexivity.
Qed.


(** X13: the text sent for a tick determines what the tick meant: two
    mixer commands with the same JSON text are equal field for field,
    and no mixer command has the text of the stop command. *)
Theorem message_text_injective (o1 o2 : option command) :
  message_text o1 = message_text o2 -> o1 = o2.
Proof.
  destruct o1 as [c1|], o2 as [c2|]; cbn [message_text]; intros H.
  - f_equal. exact (dumps_command_inj c1 c2 H).
  - destruct (stop_text_differs c1 H).
  - destruct (stop_text_differs c2 (eq_sym H)).
  - reflexivity.
Qed.

Lemma message_text_injective_witness :
  Some {| front_left := -255; back_left := -255;
          front_right := 0; back_right := 0; active := true |} =
  Some {| front_left := -255; back_left := -255;
          front_right := 0; back_right := 0; active := true |}.
Proof.
  apply (message_text_injective
           (Some {| front_left := -255; back_left := -255;
                    front_right := 0; back_right := 0; active := true |})
           (Some {| front_left := -255; back_left := -255;
                    front_right := 0; back_right := 0; active := true |})).
  reflexivity.
Defined.

Lemma stops_closing (s : string) : stops not_closing ("}" ++ s).
Proof. reflexivity. Qed.

(** X14: although the messages are sent back to back with nothing
    between them, the bytes received determine the sequence of messages:
    each message ends at its only closing brace. *)
Theorem stream_injective (l1 l2 : list (option command)) :
  stream l1 = stream l2 -> l1 = l2.
Proof.
  revert l2. induction l1 as [|o1 l1 IH]; intros [|o2 l2]; cbn [stream].
  - reflexivity.
  - destruct (message_frame o2) as [b [-> _]].
    destruct b; discriminate.
  - destruct (message_frame o1) as [b [-> _]].
    destruct b; discriminate.
  - destruct (message_frame o1) as [b1 [E1 H1]].
    destruct (message_frame o2) as [b2 [E2 H2]].
    rewrite E1, E2, !append_assoc. intros H.
    apply split_unique with (p := not_closing) in H;
      [| exact H1 | exact H2 | reflexivity | reflexivity].
    destruct H as [Hb Hs]. apply append_cancel in Hs.
    rewrite (IH l2 Hs). f_equal.
    apply message_text_inj. now rewrite E1, E2, Hb.
Qed.

Lemma stream_injective_witness :
  [None; Some {| front_left := 12; back_left := 12;
                 front_right := 1; back_right := 1; active := true |}] =
  [None; Some {| front_left := 12; back_left := 12;
                 front_right := 1; back_right := 1; active := true |}].
Proof.
  apply (stream_injective
           [None; Some {| front_left := 12; back_left := 12;
                          front_right := 1; back_right := 1;
                          active := true |}]
           [None; Some {| front_left := 12; back_left := 12;
                          front_right := 1; back_right := 1;
                          active := true |}]).
  reflexivity.
Defined.

Lemma num_printable (c : ascii) : is_num c = true -> printable c = true.
Proof.
  destruct c as [[|] [|] [|] [|] [|] [|] [|] [|]]; intros H;
    first [reflexivity | discriminate H].
Qed.

(** X15: every message is made of printable ASCII characters only: it
    holds no newline, and its UTF-8 encoding has one byte for each
    character. *)
Theorem message_printable (o : option command) :
  all_chars printable (message_text o) = true.
Proof.
  destruct o as [c|]; cbn [message_text]; [|reflexivity].
  rewrite dumps_command, !all_chars_append.
  rewrite !(all_chars_impl _ _ _ num_printable (numeric_str _)).
  destruct (active c); reflexivity.
Qed.

End JsonFacts.
